(** * Data migration between two PostgreSQL schemas

    A shallow embedding of [scripts/migrate_db_data.py]: the column
    reconciliation, the choice of the conflict clause, the batched transfer
    loop with its error handler, the per-table driver [migrate_table] and
    the orchestrator [main] with the report it saves.

    The two database connections, the operator's terminal, the clock and the
    file system are the program's environment.  They are modelled as an
    explicit [World] threaded through a small state-and-exception monad;
    every call the script makes on a connection or on the terminal is
    recorded in the world's [log], so that a statement such as: no write is
    issued, is a statement about that log.

    What the environment may do: every statement of [migrate_table] may
    raise (the catalog reads, the row counts, the primary-key query, the
    SELECT, [executemany], [commit] and the [rollback] of the handler),
    [input] may meet the end of the input, and a row of the source cursor
    may lack a column.  The two catalog look-ups [main] makes before its
    loop, the writing of the report and the closing of the connections are
    taken to succeed.  Console output ([print]) is not modelled. *)

From Stdlib Require Import String Ascii List Arith Bool Lia ZArith.
Import ListNotations.
Open Scope string_scope.

Set Implicit Arguments.

(** ** Python strings and lists of strings *)

(** [c in l] for a list of strings. *)
Definition str_in (c : string) (l : list string) : bool :=
  existsb (String.eqb c) l.

(** ASCII part of [str.lower]. *)
Definition lower_ascii (c : ascii) : ascii :=
  let n := nat_of_ascii c in
  if ((65 <=? n) && (n <=? 90))%nat then ascii_of_nat (n + 32) else c.

Fixpoint lower (s : string) : string :=
  match s with
  | EmptyString => EmptyString
  | String c rest => String (lower_ascii c) (lower rest)
  end.

(** The double quote and the newline, built from their codes. *)
Definition dq : string := String "034"%char EmptyString.
Definition nl : string := String "010"%char EmptyString.
Definition spaces (n : nat) : string := String.concat EmptyString (repeat " " n).

(** [f'"{c}"'] *)
Definition quoted (c : string) : string := dq ++ c ++ dq.

(** ** Static configuration *)

(** One entry of [COLUMN_MAPPING]: a dict that may hold the keys
    ['exclude'] and ['include']. *)
Record Mapping := mkMapping {
  exclude : option (list string);
  include : option (list string)
}.

Record Config := mkConfig {
  SOURCE_SCHEMA : string;
  TARGET_SCHEMA : string;
  TABLES_TO_MIGRATE : list string;
  COLUMN_MAPPING : list (string * Mapping)
}.

(** [COLUMN_MAPPING[table]] when [table in COLUMN_MAPPING]. *)
Fixpoint mapping_get (table : string) (m : list (string * Mapping)) : option Mapping :=
  match m with
  | [] => None
  | (k, v) :: rest => if k =? table then Some v else mapping_get table rest
  end.

(** The configuration written in the script. *)
Definition script_config : Config :=
  {| SOURCE_SCHEMA := "arbitrage";
     TARGET_SCHEMA := "mig_topology";
     TABLES_TO_MIGRATE :=
       ["tokens"; "pools"; "dex_state"; "pool_state_snapshots";
        "token_relations"; "audit_log"; "graph_weights"; "pool_statistics";
        "dex_statistics"; "configurations"; "event_index"];
     COLUMN_MAPPING :=
       [("pool_statistics",
         {| exclude := Some ["avg_profit_usd"; "profit_sample_count"; "last_profit_usd"];
            include := Some ["pool_address"; "tvl_usd"; "volatility_bps";
                             "volatility_sample_count"; "updated_at"] |})] |}.

(** ** Column reconciliation (migrate_table, lines 140-149) *)

(** The override rule as the script applies it: exclude first, then include. *)
Definition apply_mapping (rule : option Mapping) (source_columns : list string)
  : list string :=
  match rule with
  | Some mapping =>
      let source_columns :=
        match exclude mapping with
        | Some ex => filter (fun c => negb (str_in c ex)) source_columns
        | None => source_columns
        end in
      let source_columns :=
        match include mapping with
        | Some inc => filter (fun c => str_in c inc) source_columns
        | None => source_columns
        end in
      source_columns
  | None => source_columns
  end.

(** [[c for c in source_columns if c in target_columns]] *)
Definition common_of (source_columns target_columns : list string) : list string :=
  filter (fun c => str_in c target_columns) source_columns.

Definition reconcile (source_columns target_columns : list string)
  (rule : option Mapping) : list string :=
  common_of (apply_mapping rule source_columns) target_columns.

(** The algorithm in the order the specification words it: include, then
    exclude, then the intersection with the target columns. *)
Definition reconcile_spec (sourceColumns targetColumns : list string)
  (rule : option Mapping) : list string :=
  let start := sourceColumns in
  let restricted :=
    match rule with
    | Some r =>
        match include r with
        | Some inc => filter (fun c => str_in c inc) start
        | None => start
        end
    | None => start
    end in
  let without :=
    match rule with
    | Some r =>
        match exclude r with
        | Some ex => filter (fun c => negb (str_in c ex)) restricted
        | None => restricted
        end
    | None => restricted
    end in
  filter (fun c => str_in c targetColumns) without.

(** ** Primary-key lookup and conflict clause (lines 188-222) *)

(** [cur.fetchone()]: the first row of the result, [None] when there is none.
    A row of the primary-key query is a 1-tuple; it is modelled by the
    column name it holds. *)
Definition fetchone {A : Type} (rows : list A) : option A :=
  match rows with
  | [] => None
  | r :: _ => Some r
  end.

(** [pk_result[0] if pk_result else None] *)
Definition pk_column_of (pk_rows : list string) : option string :=
  match fetchone pk_rows with
  | Some pk_result => Some pk_result
  | None => None
  end.

(** [pk_column and pk_column in common_columns]: [None] and the empty string
    are false in Python. *)
Definition use_pk (pk_column : option string) (common_columns : list string) : bool :=
  match pk_column with
  | Some pk => negb (pk =? EmptyString) && str_in pk common_columns
  | None => false
  end.

Definition columns_str (common_columns : list string) : string :=
  String.concat ", " (map quoted common_columns).

Definition placeholders (common_columns : list string) : string :=
  String.concat ", " (repeat "%s" (length common_columns)).

Definition update_clause (common_columns : list string) (pk_column : string) : string :=
  String.concat ", "
    (map (fun c => quoted c ++ " = EXCLUDED." ++ quoted c)
         (filter (fun c => negb (c =? pk_column)) common_columns)).

(** The two texts of [insert_query] (the f-strings of lines 211-215 and
    218-222, with their line breaks and indentation). *)
Definition upsert_text (target_schema table : string)
  (common_columns : list string) (pk_column : string) : string :=
  nl ++ spaces 12 ++ "INSERT INTO " ++ quoted target_schema ++ "." ++ quoted table
     ++ " (" ++ columns_str common_columns ++ ")" ++
  nl ++ spaces 12 ++ "VALUES (" ++ placeholders common_columns ++ ")" ++
  nl ++ spaces 12 ++ "ON CONFLICT (" ++ quoted pk_column ++ ") DO UPDATE SET "
     ++ update_clause common_columns pk_column ++
  nl ++ spaces 8.

Definition do_nothing_text (target_schema table : string)
  (common_columns : list string) : string :=
  nl ++ spaces 12 ++ "INSERT INTO " ++ quoted target_schema ++ "." ++ quoted table
     ++ " (" ++ columns_str common_columns ++ ")" ++
  nl ++ spaces 12 ++ "VALUES (" ++ placeholders common_columns ++ ")" ++
  nl ++ spaces 12 ++ "ON CONFLICT DO NOTHING" ++
  nl ++ spaces 8.

Definition insert_query (target_schema table : string)
  (common_columns : list string) (pk_column : option string) : string :=
  match pk_column with
  | Some pk =>
      if use_pk pk_column common_columns
      then upsert_text target_schema table common_columns pk
      else do_nothing_text target_schema table common_columns
  | None => do_nothing_text target_schema table common_columns
  end.

Definition select_query (source_schema table : string) (common_columns : list string)
  : string :=
  "SELECT " ++ columns_str common_columns ++ " FROM "
    ++ quoted source_schema ++ "." ++ quoted table.

(** The shape of an insert statement, to read the generated text against. *)
Inductive ConflictAction :=
| DoUpdateSet (key : string) (overwritten : list string)
| DoNothing.

Record InsertStatement := mkInsert {
  into_schema : string;
  into_table : string;
  insert_columns : list string;
  on_conflict : ConflictAction
}.

Definition render_conflict (a : ConflictAction) : string :=
  match a with
  | DoUpdateSet key overwritten =>
      "ON CONFLICT (" ++ quoted key ++ ") DO UPDATE SET "
        ++ String.concat ", "
             (map (fun c => quoted c ++ " = EXCLUDED." ++ quoted c) overwritten)
  | DoNothing => "ON CONFLICT DO NOTHING"
  end.

Definition render (s : InsertStatement) : string :=
  nl ++ spaces 12 ++ "INSERT INTO " ++ quoted (into_schema s) ++ "." ++ quoted (into_table s)
     ++ " (" ++ String.concat ", " (map quoted (insert_columns s)) ++ ")" ++
  nl ++ spaces 12 ++ "VALUES ("
     ++ String.concat ", " (repeat "%s" (length (insert_columns s))) ++ ")" ++
  nl ++ spaces 12 ++ render_conflict (on_conflict s) ++
  nl ++ spaces 8.

(** ** Results and the report *)

(** The dict [migrate_table] returns.  ['status'] is one of the strings
    [success], [skipped], [error]; ['reason'], ['error'] and
    ['columns_migrated'] are present in some of the three shapes only. *)
Record Result := mkResult {
  r_table : string;
  r_status : string;
  r_reason : option string;
  r_error : option string;
  r_rows_migrated : nat;
  r_columns_migrated : option nat
}.

Local Unset Elimination Schemes.
Inductive Json :=
| JStr (s : string)
| JInt (n : Z)
| JList (l : list Json)
| JDict (d : list (string * Json)).
Local Set Elimination Schemes.

Definition opt_entry {A : Type} (key : string) (f : A -> Json) (o : option A)
  : list (string * Json) :=
  match o with
  | Some a => [(key, f a)]
  | None => []
  end.

Definition result_json (r : Result) : Json :=
  JDict ([("table", JStr (r_table r)); ("status", JStr (r_status r))]
         ++ opt_entry "reason" JStr (r_reason r)
         ++ opt_entry "error" JStr (r_error r)
         ++ [("rows_migrated", JInt (Z.of_nat (r_rows_migrated r)))]
         ++ opt_entry "columns_migrated" (fun n => JInt (Z.of_nat n)) (r_columns_migrated r)).

(** ** Exceptions *)

Inductive Exn :=
| EOFError
| KeyError (key : string)
| DatabaseError (msg : string)
| SystemExit (code : nat).

(** [repr(s)] of a string, which is what [str] of a [KeyError] shows:
    double quotes when the string holds a single quote and no double quote,
    single quotes otherwise; the backslash, the chosen quote, newline,
    carriage return and tab are escaped, the other control characters are
    written as two hexadecimal digits.  The bytes of non-ASCII characters
    are kept, as Python keeps the printable ones. *)
Definition has_char (c : ascii) (s : string) : bool :=
  existsb (Ascii.eqb c) (list_ascii_of_string s).

Definition hex_digit (n : nat) : string :=
  substring n 1 "0123456789abcdef".

Definition repr_char (quote c : ascii) : string :=
  let n := nat_of_ascii c in
  if Ascii.eqb c "\"%char then "\\"
  else if Ascii.eqb c quote then String "\"%char (String quote EmptyString)
  else if (n =? 10)%nat then "\n"
  else if (n =? 13)%nat then "\r"
  else if (n =? 9)%nat then "\t"
  else if ((n <? 32) || (n =? 127))%nat
       then "\x" ++ hex_digit (n / 16) ++ hex_digit (n mod 16)
  else String c EmptyString.

Definition py_repr (s : string) : string :=
  let quote := if has_char "'"%char s && negb (has_char "034"%char s)
               then "034"%char else "'"%char in
  String quote
    (String.concat EmptyString (map (repr_char quote) (list_ascii_of_string s))
       ++ String quote EmptyString).

(** [str(e)] *)
Definition exn_str (e : Exn) : string :=
  match e with
  | EOFError => "EOF when reading a line"
  | KeyError key => py_repr key
  | DatabaseError msg => msg
  | SystemExit code => EmptyString (* not an [Exception]: never caught *)
  end.

Inductive Outcome (A : Type) :=
| Ok (a : A)
| Raised (e : Exn).
Arguments Raised {A} e.

Inductive Conn := SourceConn | TargetConn.

(** The statements the script sends besides the batch writes. *)
Inductive Query :=
| QColumns (schema table : string)
| QRowCount (schema table : string)
| QPrimaryKey (schema table : string)
| QSelect (text : string).

(** [batch_size = 1000] (line 228) *)
Definition batch_size : nat := 1000.

(** ** The environment: connections, terminal, clock, files *)

Section Migration.

(** The values a row holds are whatever psycopg2 hands over. *)
Variable Value : Type.

(** A row as [executemany] receives it, and as [RealDictCursor] yields it. *)
Local Abbreviation Tuple := (list Value).
Local Abbreviation DictRow := (list (string * Value)).

(** The source connection is only read.  [s_raises q] is the message of the
    exception the statement [q] raises, when it raises; the other fields
    are the answers of the statements that do not raise. *)
Record Source := mkSource {
  s_tables : string -> list string;
  s_columns : string -> string -> list string;
  s_row_count : string -> string -> nat;
  s_select : string -> list DictRow;
  s_raises : Query -> option string
}.

(** The target connection over a database state [T].  A write that raises
    returns the message of its exception; [t_raises] does for the reads
    what [s_raises] does on the source. *)
Record Target (T : Type) := mkTarget {
  t_tables : T -> string -> list string;
  t_columns : T -> string -> string -> list string;
  t_row_count : T -> string -> string -> nat;
  t_primary_key : T -> string -> string -> list string;
  t_raises : T -> Query -> option string;
  t_executemany : T -> string -> list Tuple -> option string * T;
  t_commit : T -> option string * T;
  t_rollback : T -> option string * T
}.

Record Env := mkEnv {
  source : Source;
  source_reachable : bool;
  target_reachable : bool;
  (** [datetime.now().strftime('%Y%m%d_%H%M%S')] when the log file is named *)
  now_stamp : string;
  (** [datetime.now().isoformat()] when the log file is written *)
  now_iso : string
}.

Inductive Event :=
| EvTables (c : Conn)
| EvColumns (c : Conn) (table : string)
| EvRowCount (c : Conn) (table : string)
| EvInput (table : option string)
| EvPrimaryKey (table : string)
| EvSelect (query : string)
| EvExecuteMany (query : string) (batch : list Tuple)
| EvCommit
| EvRollback
| EvClose (c : Conn).

Variable T : Type.
Variable tgt : Target T.

Record World := mkWorld {
  target : T;
  stdin : list string;
  log : list Event;
  files : list (string * Json)
}.

Definition emit (e : Event) (w : World) : World :=
  {| target := target w; stdin := stdin w; log := log w ++ [e]; files := files w |}.

Definition set_target (db : T) (w : World) : World :=
  {| target := db; stdin := stdin w; log := log w; files := files w |}.

(** The world once the target has become [db] and [events] were logged. *)
Definition after (w : World) (db : T) (events : list Event) : World :=
  {| target := db; stdin := stdin w; log := log w ++ events; files := files w |}.

(** *** The monad *)

Definition M (A : Type) : Type := World -> Outcome A * World.

Definition ret {A : Type} (a : A) : M A := fun w => (Ok a, w).

Definition raise {A : Type} (e : Exn) : M A := fun w => (Raised e, w).

Definition bind {A B : Type} (m : M A) (f : A -> M B) : M B :=
  fun w =>
    match m w with
    | (Ok a, w') => f a w'
    | (Raised e, w') => (Raised e, w')
    end.

(** [try: m finally: cleanup] *)
Definition finally {A : Type} (m : M A) (cleanup : World -> World) : M A :=
  fun w => let (o, w') := m w in (o, cleanup w').

Notation "x <- m ;; k" := (bind m (fun x => k))
  (at level 100, m at next level, right associativity).
Notation "m ;;; k" := (bind m (fun _ => k))
  (at level 100, right associativity).

(** *** Calls on the environment *)

Variable cfg : Config.
Variable env : Env.

(** Whether the statement [q] raises on the connection [c]. *)
Definition raises (c : Conn) (q : Query) (w : World) : option string :=
  match c with
  | SourceConn => s_raises (source env) q
  | TargetConn => t_raises tgt (target w) q
  end.

Definition get_table_columns (c : Conn) (schema table : string) : M (list string) :=
  fun w =>
    match raises c (QColumns schema table) w with
    | Some msg => (Raised (DatabaseError msg), emit (EvColumns c table) w)
    | None =>
        (Ok match c with
            | SourceConn => s_columns (source env) schema table
            | TargetConn => t_columns tgt (target w) schema table
            end,
         emit (EvColumns c table) w)
    end.

Definition get_table_row_count (c : Conn) (schema table : string) : M nat :=
  fun w =>
    match raises c (QRowCount schema table) w with
    | Some msg => (Raised (DatabaseError msg), emit (EvRowCount c table) w)
    | None =>
        (Ok match c with
            | SourceConn => s_row_count (source env) schema table
            | TargetConn => t_row_count tgt (target w) schema table
            end,
         emit (EvRowCount c table) w)
    end.

(** [input(...)]: the next line the operator types; [EOFError] at the end
    of the input. *)
Definition input (table : option string) : M string :=
  fun w =>
    match stdin w with
    | [] => (Raised EOFError, emit (EvInput table) w)
    | response :: rest =>
        (Ok response,
         {| target := target w; stdin := rest;
            log := log w ++ [EvInput table]; files := files w |})
    end.

(** [cur.execute(pk_query, (target_schema, table))]: the rows the
    primary-key query has for the cursor. *)
Definition pk_query (target_schema table : string) : M (list string) :=
  fun w =>
    match raises TargetConn (QPrimaryKey target_schema table) w with
    | Some msg => (Raised (DatabaseError msg), emit (EvPrimaryKey table) w)
    | None =>
        (Ok (t_primary_key tgt (target w) target_schema table),
         emit (EvPrimaryKey table) w)
    end.

(** [source_cur.execute(select_query)] and the rows the cursor then yields. *)
Definition source_execute (query : string) : M (list DictRow) :=
  fun w =>
    match raises SourceConn (QSelect query) w with
    | Some msg => (Raised (DatabaseError msg), emit (EvSelect query) w)
    | None => (Ok (s_select (source env) query), emit (EvSelect query) w)
    end.

Definition executemany (query : string) (batch : list Tuple) : M unit :=
  fun w =>
    let w1 := emit (EvExecuteMany query batch) w in
    match t_executemany tgt (target w) query batch with
    | (None, db) => (Ok tt, set_target db w1)
    | (Some msg, db) => (Raised (DatabaseError msg), set_target db w1)
    end.

Definition commit : M unit :=
  fun w =>
    let w1 := emit EvCommit w in
    match t_commit tgt (target w) with
    | (None, db) => (Ok tt, set_target db w1)
    | (Some msg, db) => (Raised (DatabaseError msg), set_target db w1)
    end.

Definition rollback : M unit :=
  fun w =>
    let w1 := emit EvRollback w in
    match t_rollback tgt (target w) with
    | (None, db) => (Ok tt, set_target db w1)
    | (Some msg, db) => (Raised (DatabaseError msg), set_target db w1)
    end.

(** ** The batched transfer (lines 227-271) *)

(** [row[col]] on a [RealDictRow]. *)
Fixpoint row_get (row : DictRow) (col : string) : option Value :=
  match row with
  | [] => None
  | (k, v) :: rest => if k =? col then Some v else row_get rest col
  end.

(** [[row[col] for col in common_columns]]; the first missing key raises. *)
Fixpoint row_values (row : DictRow) (common_columns : list string) : Exn + Tuple :=
  match common_columns with
  | [] => inr []
  | col :: cols =>
      match row_get row col with
      | None => inl (KeyError col)
      | Some v =>
          match row_values row cols with
          | inl e => inl e
          | inr vs => inr (v :: vs)
          end
      end
  end.

(** The body of one [with target_conn.cursor()] block. *)
Definition write_batch (query : string) (batch : list Tuple) : M unit :=
  executemany query batch ;;; commit.

(** The [for row in source_cur] loop and the flush of the last batch.  The
    locals [batch] and [rows_migrated] are carried along; the result gives
    [rows_migrated] when the block is left and the exception that left it,
    if one did. *)
Fixpoint transfer_rows (size : nat) (query : string) (common_columns : list string)
  (rows : list DictRow) (batch : list Tuple) (rows_migrated : nat) (w : World)
  : nat * option Exn * World :=
  match rows with
  | [] =>
      match batch with
      | [] => (rows_migrated, None, w)
      | _ :: _ =>
          match write_batch query batch w with
          | (Ok _, w') => (rows_migrated + length batch, None, w')
          | (Raised e, w') => (rows_migrated, Some e, w')
          end
      end
  | row :: rest =>
      match row_values row common_columns with
      | inl e => (rows_migrated, Some e, w)
      | inr values =>
          let batch := (batch ++ [values])%list in
          if (size <=? length batch)%nat then
            match write_batch query batch w with
            | (Ok _, w') =>
                transfer_rows size query common_columns rest []
                  (rows_migrated + length batch) w'
            | (Raised e, w') => (rows_migrated, Some e, w')
            end
          else transfer_rows size query common_columns rest batch rows_migrated w
      end
  end.

(** The dicts returned at the end of the [try] block and by its handler. *)
Definition success_result (table : string) (rows_migrated columns : nat) : Result :=
  {| r_table := table; r_status := "success"; r_reason := None; r_error := None;
     r_rows_migrated := rows_migrated; r_columns_migrated := Some columns |}.

Definition error_result (table msg : string) (rows_migrated : nat) : Result :=
  {| r_table := table; r_status := "error"; r_reason := None; r_error := Some msg;
     r_rows_migrated := rows_migrated; r_columns_migrated := None |}.

(** The [except Exception as e] handler (lines 263-271).  An exception its
    [rollback] raises is not caught: it leaves [migrate_table]. *)
Definition on_exception (table : string) (rows_migrated : nat) (e : Exn) : M Result :=
  rollback ;;;
  ret (error_result table (exn_str e) rows_migrated).

(** The [try] block (lines 230-261) under its handler. *)
Definition transfer (table select_q insert_q : string) (common_columns : list string)
  : M Result :=
  fun w =>
    match source_execute select_q w with
    | (Raised e, w') => on_exception table 0 e w'
    | (Ok rows, w0) =>
        match transfer_rows batch_size insert_q common_columns rows [] 0 w0 with
        | (rows_migrated, None, w') =>
            (Ok (success_result table rows_migrated (length common_columns)), w')
        | (rows_migrated, Some e, w') => on_exception table rows_migrated e w'
        end
    end.

Definition skip (table reason : string) : Result :=
  {| r_table := table; r_status := "skipped";
     r_reason := Some reason; r_error := None;
     r_rows_migrated := 0; r_columns_migrated := None |}.

Definition is_empty {A : Type} (l : list A) : bool :=
  match l with
  | [] => true
  | _ :: _ => false
  end.

(** ** One table (lines 126-271)

    [migrate_table] is read in two parts: [prepare] (lines 134-225) either
    ends the table with a [skipped] result or settles what to transfer, and
    [transfer] (lines 227-271) does it. *)

Record Plan := mkPlan {
  plan_columns : list string;
  plan_select : string;
  plan_insert : string
}.

Definition prepare (table : string) : M (Result + Plan) :=
  let source_schema := SOURCE_SCHEMA cfg in
  let target_schema := TARGET_SCHEMA cfg in
  source_columns <- get_table_columns SourceConn source_schema table ;;
  target_columns <- get_table_columns TargetConn target_schema table ;;
  let common_columns :=
    reconcile source_columns target_columns (mapping_get table (COLUMN_MAPPING cfg)) in
  if is_empty common_columns then
    ret (inl (skip table "No hay columnas comunes"))
  else
    source_count <- get_table_row_count SourceConn source_schema table ;;
    target_count <- get_table_row_count TargetConn target_schema table ;;
    if (source_count =? 0)%nat then
      ret (inl (skip table "Tabla vacía en origen"))
    else
      proceed <- (if (0 <? target_count)%nat then
                    response <- input (Some table) ;;
                    ret (lower response =? "s")
                  else ret true) ;;
      if negb proceed then
        ret (inl (skip table "Usuario canceló"))
      else
        pk_rows <- pk_query target_schema table ;;
        let pk_column := pk_column_of pk_rows in
        ret (inr {| plan_columns := common_columns;
                    plan_select := select_query source_schema table common_columns;
                    plan_insert :=
                      insert_query target_schema table common_columns pk_column |}).

Definition migrate_table (table : string) : M Result :=
  prepared <- prepare table ;;
  match prepared with
  | inl result => ret result
  | inr plan =>
      transfer table (plan_select plan) (plan_insert plan) (plan_columns plan)
  end.

(** ** The orchestrator (lines 274-423) *)

(** [verify_connections]: the source is tried first. *)
Definition verify_connections : bool :=
  if source_reachable env then
    if target_reachable env then true else false
  else false.

(** [check_tables_exist]: the dict [{table: table in existing}]. *)
Definition check_tables_exist (c : Conn) (schema : string) (tables : list string)
  : M (list (string * bool)) :=
  fun w =>
    let catalog := match c with
                   | SourceConn => s_tables (source env) schema
                   | TargetConn => t_tables tgt (target w) schema
                   end in
    let existing := filter (fun name => str_in name tables) catalog in
    (Ok (map (fun table => (table, str_in table existing)) tables),
     emit (EvTables c) w).

(** [d.get(t, False)] *)
Fixpoint get_or_false (d : list (string * bool)) (t : string) : bool :=
  match d with
  | [] => false
  | (k, v) :: rest => if k =? t then v else get_or_false rest t
  end.

(** The [for table in tables_to_migrate] loop, [results] being the list
    appended to. *)
Fixpoint migrate_all (tables : list string) (results : list Result) : M (list Result) :=
  match tables with
  | [] => ret results
  | table :: rest =>
      result <- migrate_table table ;;
      migrate_all rest (results ++ [result])
  end.

Record Totals := mkTotals {
  total_rows : nat;
  success_count : nat;
  error_count : nat;
  skipped_count : nat
}.

(** One turn of the summary loop (lines 391-402). *)
Definition count_result (t : Totals) (result : Result) : Totals :=
  let status := r_status result in
  if status =? "success" then
    {| total_rows := total_rows t + r_rows_migrated result;
       success_count := success_count t + 1;
       error_count := error_count t;
       skipped_count := skipped_count t |}
  else if status =? "error" then
    {| total_rows := total_rows t;
       success_count := success_count t;
       error_count := error_count t + 1;
       skipped_count := skipped_count t |}
  else
    {| total_rows := total_rows t;
       success_count := success_count t;
       error_count := error_count t;
       skipped_count := skipped_count t + 1 |}.

Definition summarize (results : list Result) : Totals :=
  fold_left count_result results
    {| total_rows := 0; success_count := 0; error_count := 0; skipped_count := 0 |}.

Definition log_file : string := "migration_log_" ++ now_stamp env ++ ".json".

(** The object handed to [json.dump]. *)
Definition report (results : list Result) (total_rows : nat) : Json :=
  JDict [("timestamp", JStr (now_iso env));
         ("source_schema", JStr (SOURCE_SCHEMA cfg));
         ("target_schema", JStr (TARGET_SCHEMA cfg));
         ("results", JList (map result_json results));
         ("total_rows_migrated", JInt (Z.of_nat total_rows))].

(** [open(name, 'w')] and the dump: the newest entry of a name is the file. *)
Definition write_file (name : string) (content : Json) : M unit :=
  fun w =>
    (Ok tt, {| target := target w; stdin := stdin w; log := log w;
               files := (name, content) :: files w |}).

Definition close_connections (w : World) : World :=
  emit (EvClose TargetConn) (emit (EvClose SourceConn) w).

(** The tables present on both sides (lines 335-352). *)
Definition enumerate : M (list string) :=
  source_tables <- check_tables_exist SourceConn (SOURCE_SCHEMA cfg)
                     (TABLES_TO_MIGRATE cfg) ;;
  target_tables <- check_tables_exist TargetConn (TARGET_SCHEMA cfg)
                     (TABLES_TO_MIGRATE cfg) ;;
  ret (filter (fun t => get_or_false source_tables t && get_or_false target_tables t)
              (TABLES_TO_MIGRATE cfg)).

Definition main : M unit :=
  if negb verify_connections then raise (SystemExit 1)
  else
    finally
      (tables_to_migrate <- enumerate ;;
       if is_empty tables_to_migrate then ret tt
       else
         response <- input None ;;
         if negb (lower response =? "s") then ret tt
         else
           results <- migrate_all tables_to_migrate [] ;;
           let totals := summarize results in
           write_file log_file (report results (total_rows totals)))
      close_connections.

End Migration.

Arguments EvTables {Value} c.
Arguments EvColumns {Value} c table.
Arguments EvRowCount {Value} c table.
Arguments EvInput {Value} table.
Arguments EvPrimaryKey {Value} table.
Arguments EvSelect {Value} query.
Arguments EvCommit {Value}.
Arguments EvRollback {Value}.
Arguments EvClose {Value} c.

(** ** A small database to run the script on

    Integer-valued tables.  The unique key of a table is its primary key,
    or its first column when it has none, and the first column must not be
    negative (a check constraint).  A statement is told apart by its text,
    as a server would: an insert whose conflict target is not the unique
    key of the table, or whose SET list is empty, is rejected.  The server
    may drop the connection at a batch write, after which every call on
    the connection raises. *)

Module Toy.

Record Table := mkTable {
  name : string;
  columns : list string;
  primary_key : list string;
  rows : list (list Z)
}.

(** The committed tables, the view of the open transaction, and the
    connection: whether it is up, and after how many more batch writes the
    server drops it ([None]: it lasts). *)
Record DB := mkDB {
  committed : list Table;
  working : list Table;
  connected : bool;
  writes_left : option nat
}.

Fixpoint find_table (t : string) (ts : list Table) : option Table :=
  match ts with
  | [] => None
  | x :: rest => if name x =? t then Some x else find_table t rest
  end.

Definition ends_with (suffix s : string) : bool :=
  substring (String.length s - String.length suffix) (String.length suffix) s =? suffix.

Definition contains (part s : string) : bool :=
  match index 0 part s with
  | Some _ => true
  | None => false
  end.

(** The columns under the unique constraint of a table: its primary key,
    or its first column when it has none.  They are the leading columns
    of the table. *)
Definition unique_key (t : Table) : list string :=
  match primary_key t with
  | [] => firstn 1 (columns t)
  | key => key
  end.

(** Whether two rows agree on their first [width] columns. *)
Fixpoint same_key (width : nat) (a b : list Z) : bool :=
  match width with
  | 0 => true
  | S n =>
      match a, b with
      | x :: a', y :: b' => if Z.eqb x y then same_key n a' b' else false
      | [], [] => true
      | _, _ => false
      end
  end.

(** One row under [ON CONFLICT ... DO UPDATE] ([update = true]) or
    [ON CONFLICT DO NOTHING]. *)
Fixpoint insert_row (width : nat) (update : bool) (r : list Z)
  (existing : list (list Z)) : list (list Z) :=
  match existing with
  | [] => [r]
  | x :: rest =>
      if same_key width x r then (if update then r :: rest else x :: rest)
      else x :: insert_row width update r rest
  end.

Definition violates_check (r : list Z) : bool :=
  match r with
  | x :: _ => Z.ltb x 0
  | [] => false
  end.

Definition addressed (schema : string) (query : string) (t : Table) : bool :=
  prefix (nl ++ spaces 12 ++ "INSERT INTO " ++ quoted schema ++ "." ++ quoted (name t) ++ " (")
         query.

Definition does_nothing (query : string) : bool :=
  ends_with ("ON CONFLICT DO NOTHING" ++ nl ++ spaces 8) query.

(** What the server objects to in an insert addressed to [t]: a conflict
    target that is not the unique key of the table, or an empty SET list. *)
Definition statement_error (query : string) (t : Table) : option string :=
  if does_nothing query then None
  else
    match unique_key t with
    | [k] =>
        if contains ("ON CONFLICT (" ++ quoted k ++ ") DO UPDATE SET ") query then
          if ends_with ("DO UPDATE SET " ++ nl ++ spaces 8) query
          then Some "syntax error at end of input"
          else None
        else Some "there is no unique or exclusion constraint matching the ON CONFLICT specification"
    | _ => Some "there is no unique or exclusion constraint matching the ON CONFLICT specification"
    end.

Definition run_insert (schema query : string) (batch : list (list Z)) (t : Table) : Table :=
  if addressed schema query t then
    let width := length (unique_key t) in
    let update := negb (does_nothing query) in
    {| name := name t; columns := columns t; primary_key := primary_key t;
       rows := fold_left (fun acc r => insert_row width update r acc) batch (rows t) |}
  else t.

(** The first objection of the server to a batch, if it has one. *)
Definition batch_error (schema query : string) (batch : list (list Z))
  (ts : list Table) : option string :=
  match find (addressed schema query) ts with
  | Some t =>
      match statement_error query t with
      | Some msg => Some msg
      | None => if existsb violates_check batch
                then Some "new row violates check constraint"
                else None
      end
  | None => Some "relation does not exist"
  end.

Definition table_columns (ts : list Table) (t : string) : list string :=
  match find_table t ts with
  | Some x => columns x
  | None => []
  end.

Definition table_rows (ts : list Table) (t : string) : list (list Z) :=
  match find_table t ts with
  | Some x => rows x
  | None => []
  end.

Definition closed : string := "connection already closed".

Definition toy_target (schema : string) : Target Z DB :=
  {| t_tables := fun db _ => map name (working db);
     t_columns := fun db _ t => table_columns (working db) t;
     t_row_count := fun db _ t => length (table_rows (working db) t);
     t_primary_key := fun db _ t =>
       match find_table t (working db) with
       | Some x => primary_key x
       | None => []
       end;
     t_raises := fun db _ => if connected db then None else Some closed;
     t_executemany := fun db query batch =>
       if negb (connected db) then (Some closed, db)
       else
         match writes_left db with
         | Some 0 =>
             (Some "server closed the connection unexpectedly",
              {| committed := committed db; working := committed db;
                 connected := false; writes_left := None |})
         | remaining =>
             match batch_error schema query batch (working db) with
             | Some msg => (Some msg, db)
             | None =>
                 (None, {| committed := committed db;
                           working := map (run_insert schema query batch) (working db);
                           connected := true;
                           writes_left := option_map pred remaining |})
             end
         end;
     t_commit := fun db =>
       if connected db
       then (None, {| committed := working db; working := working db;
                      connected := true; writes_left := writes_left db |})
       else (Some closed, db);
     t_rollback := fun db =>
       if connected db
       then (None, {| committed := committed db; working := committed db;
                      connected := true; writes_left := writes_left db |})
       else (Some closed, db) |}.

(** The source side: the cursor of [SELECT ... FROM "schema"."t"] yields the
    rows of [t] as dicts keyed by column name. *)
Definition toy_source (schema : string) (ts : list Table) : Source Z :=
  {| s_tables := fun _ => map name ts;
     s_columns := fun _ t => table_columns ts t;
     s_row_count := fun _ t => length (table_rows ts t);
     s_select := fun query =>
       match find (fun t => ends_with (" FROM " ++ quoted schema ++ "." ++ quoted (name t)) query) ts with
       | Some t => map (fun r => combine (columns t) r) (rows t)
       | None => []
       end;
     s_raises := fun _ => None |}.

Definition toy_env (ts : list Table) : Env Z :=
  {| source := toy_source "arbitrage" ts;
     source_reachable := true;
     target_reachable := true;
     now_stamp := "20240101_120000";
     now_iso := "2024-01-01T12:00:00" |}.

Definition toy_world (ts : list Table) (answers : list string) : World Z DB :=
  {| target := {| committed := ts; working := ts;
                  connected := true; writes_left := None |};
     stdin := answers; log := []; files := [] |}.

Definition toy_config (tables : list string) : Config :=
  {| SOURCE_SCHEMA := "arbitrage"; TARGET_SCHEMA := "mig_topology";
     TABLES_TO_MIGRATE := tables; COLUMN_MAPPING := [] |}.

(** [n] rows [[first; 7]], [[first + 1; 7]], ... *)
Definition numbered (first : Z) (n : nat) : list (list Z) :=
  map (fun i => [first + Z.of_nat i; 7]%Z) (seq 0 n).

Definition tgt : Target Z DB := toy_target "mig_topology".

Definition tokens (key : list string) (rs : list (list Z)) : Table :=
  {| name := "tokens"; columns := ["id"; "v"]; primary_key := key; rows := rs |}.

Definition pools (rs : list (list Z)) : Table :=
  {| name := "pools"; columns := ["id"; "v"]; primary_key := ["id"]; rows := rs |}.

Definition cfg : Config := toy_config ["tokens"; "pools"].

(** Scenario A: the 1001st row of [tokens] violates the check constraint;
    [pools] has two rows; the target tables are empty. *)
Definition source_a : list Table :=
  [tokens ["id"] (numbered 0 1000 ++ [[-1; 7]%Z]); pools (numbered 0 2)].
Definition target_a : list Table := [tokens ["id"] []; pools []].
Definition env_a : Env Z := toy_env source_a.
Definition world_a : World Z DB := toy_world target_a ["s"].

(** Scenario B: 2500 rows of [tokens] for an empty target. *)
Definition source_b : list Table := [tokens ["id"] (numbered 0 2500)].
Definition target_b : list Table := [tokens ["id"] []].
Definition env_b : Env Z := toy_env source_b.
Definition world_b : World Z DB := toy_world target_b [].

(** Scenario C: the target table has no primary key; two source rows
    carry the same value in the unique first column. *)
Definition source_c : list Table := [tokens [] [[1; 7]%Z; [1; 8]%Z]].
Definition target_c : list Table := [tokens [] []].
Definition env_c : Env Z := toy_env source_c.
Definition world_c : World Z DB := toy_world target_c [].



Definition target_g : list Table := [tokens ["id"] (numbered 0 2)].

(** Scenario H: [tokens] is counted with one row, and the cursor opened
    afterwards yields none (the row is gone in between). *)
Definition env_h : Env Z :=
  {| source := {| s_tables := fun _ => ["tokens"];
                  s_columns := fun _ _ => ["id"; "v"];
                  s_row_count := fun _ _ => 1;
                  s_select := fun _ => [];
                  s_raises := fun _ => None |};
     source_reachable := true;
     target_reachable := true;
     now_stamp := "20240101_120000";
     now_iso := "2024-01-01T12:00:00" |}.

Definition world_h : World Z DB := toy_world target_g ["s"].

(** Scenario I: the target cannot be reached. *)
Definition env_i : Env Z :=
  {| source := toy_source "arbitrage" source_b;
     source_reachable := true;
     target_reachable := false;
     now_stamp := "20240101_120000";
     now_iso := "2024-01-01T12:00:00" |}.

(** Scenario J: the operator answers n to the question of the run. *)
Definition world_j : World Z DB := toy_world target_a ["n"; "s"].

(** Scenario K: none of the configured tables is in the target. *)
Definition world_k : World Z DB :=
  toy_world [{| name := "dex_state"; columns := ["id"]; primary_key := ["id"];
                rows := [] |}] ["s"].

(** Scenario F: a composite primary key on [token_relations]. *)
Definition relations (rs : list (list Z)) : Table :=
  {| name := "token_relations"; columns := ["token_a"; "token_b"; "weight"];
     primary_key := ["token_a"; "token_b"]; rows := rs |}.
Definition source_f : list Table := [relations [[1; 2; 5]%Z]].
Definition target_f : list Table := [relations []].
Definition env_f : Env Z := toy_env source_f.
Definition world_f : World Z DB := toy_world target_f [].

(** Scenario L: the server drops the target connection at the first batch
    write of the run; the source and the target tables are those of a run
    that would otherwise move two rows of [tokens] and two of [pools]. *)
Definition source_l : list Table := [tokens ["id"] (numbered 0 2); pools (numbered 0 2)].
Definition env_l : Env Z := toy_env source_l.
Definition world_l : World Z DB :=
  {| target := {| committed := target_a; working := target_a;
                  connected := true; writes_left := Some 0 |};
     stdin := ["s"]; log := []; files := [] |}.

(** Scenario M: the source refuses the SELECT on [tokens], which it counted
    with two rows. *)
Definition denied : string := "permission denied for table tokens".
Definition env_m : Env Z :=
  {| source := {| s_tables := fun _ => ["tokens"];
                  s_columns := fun _ _ => ["id"; "v"];
                  s_row_count := fun _ _ => 2;
                  s_select := fun _ => [];
                  s_raises := fun q => match q with
                                       | QSelect _ => Some denied
                                       | _ => None
                                       end |};
     source_reachable := true;
     target_reachable := true;
     now_stamp := "20240101_120000";
     now_iso := "2024-01-01T12:00:00" |}.

(** Scenario N: the source refuses to count the rows of [tokens]. *)
Definition env_n : Env Z :=
  {| source := {| s_tables := fun _ => ["tokens"];
                  s_columns := fun _ _ => ["id"; "v"];
                  s_row_count := fun _ _ => 2;
                  s_select := fun _ => [];
                  s_raises := fun q => match q with
                                       | QRowCount _ _ => Some denied
                                       | _ => None
                                       end |};
     source_reachable := true;
     target_reachable := true;
     now_stamp := "20240101_120000";
     now_iso := "2024-01-01T12:00:00" |}.

End Toy.

(** ** Vocabulary for the statements below *)

Section Vocabulary.

Variable Value : Type.
Variable T : Type.
Variable tgt : Target Value T.

Local Abbreviation Tuple := (list Value).
Local Abbreviation DictRow := (list (string * Value)).

(** The tuples of all the rows, when every row holds every selected column. *)
Fixpoint all_values (common_columns : list string) (rows : list DictRow)
  : option (list Tuple) :=
  match rows with
  | [] => Some []
  | row :: rest =>
      match row_values row common_columns, all_values common_columns rest with
      | inr values, Some more => Some (values :: more)
      | _, _ => None
      end
  end.

(** The batches a sequence of tuples is cut into when [batch] is already
    pending: a batch is closed as soon as it holds [size] tuples, and what
    is pending at the end is the last batch. *)
Fixpoint batches (size : nat) (batch : list Tuple) (tuples : list Tuple)
  : list (list Tuple) :=
  match tuples with
  | [] => match batch with
          | [] => []
          | _ :: _ => [batch]
          end
  | t :: rest =>
      let batch := (batch ++ [t])%list in
      if (size <=? length batch)%nat then batch :: batches size [] rest
      else batches size batch rest
  end.

(** The log of batches written and committed one after the other. *)
Definition write_events (query : string) (bs : list (list Tuple))
  : list (Event Value) :=
  flat_map (fun b => [EvExecuteMany query b; EvCommit]) bs.

Definition is_write (e : Event Value) : bool :=
  match e with
  | EvExecuteMany _ _ | EvCommit | EvRollback => true
  | _ => false
  end.

Definition is_row_count (e : Event Value) : bool :=
  match e with
  | EvRowCount _ _ => true
  | _ => false
  end.

Definition is_input (e : Event Value) : bool :=
  match e with
  | EvInput _ => true
  | _ => false
  end.

(** One batch on the database: [executemany], then [commit] if it did not
    raise.  The message is that of the statement that raised. *)
Definition db_write (db : T) (query : string) (batch : list Tuple)
  : option string * T :=
  match t_executemany tgt db query batch with
  | (Some msg, db') => (Some msg, db')
  | (None, db') => t_commit tgt db'
  end.

(** The database after the batches [bs] were all written and committed. *)
Fixpoint db_write_all (db : T) (query : string) (bs : list (list Tuple))
  : option T :=
  match bs with
  | [] => Some db
  | b :: rest =>
      match db_write db query b with
      | (None, db') => db_write_all db' query rest
      | (Some _, _) => None
      end
  end.

(** What one attempt to write a batch leaves in the log: the [executemany],
    and the [commit] when the [executemany] did not raise. *)
Definition attempt_events (db : T) (query : string) (batch : list Tuple)
  : list (Event Value) :=
  match t_executemany tgt db query batch with
  | (Some _, _) => [EvExecuteMany query batch]
  | (None, _) => [EvExecuteMany query batch; EvCommit]
  end.

(** The reconciled columns of [table] when the target is in state [db],
    and what [prepare] settles for a table it does not skip. *)
Definition reconciled (cfg : Config) (env : Env Value) (table : string) (db : T)
  : list string :=
  reconcile (s_columns (source env) (SOURCE_SCHEMA cfg) table)
            (t_columns tgt db (TARGET_SCHEMA cfg) table)
            (mapping_get table (COLUMN_MAPPING cfg)).

Definition plan_of (cfg : Config) (env : Env Value) (table : string) (db : T) : Plan :=
  {| plan_columns := reconciled cfg env table db;
     plan_select := select_query (SOURCE_SCHEMA cfg) table (reconciled cfg env table db);
     plan_insert :=
       insert_query (TARGET_SCHEMA cfg) table (reconciled cfg env table db)
         (pk_column_of (t_primary_key tgt db (TARGET_SCHEMA cfg) table)) |}.

(** The statements of [prepare] that answer rather than raise: the two
    reads of the columns, the two row counts, the primary-key query. *)
Definition columns_answer (cfg : Config) (env : Env Value) (table : string) (db : T)
  : Prop :=
  s_raises (source env) (QColumns (SOURCE_SCHEMA cfg) table) = None
  /\ t_raises tgt db (QColumns (TARGET_SCHEMA cfg) table) = None.

Definition counts_answer (cfg : Config) (env : Env Value) (table : string) (db : T)
  : Prop :=
  s_raises (source env) (QRowCount (SOURCE_SCHEMA cfg) table) = None
  /\ t_raises tgt db (QRowCount (TARGET_SCHEMA cfg) table) = None.

Definition key_answers (cfg : Config) (table : string) (db : T) : Prop :=
  t_raises tgt db (QPrimaryKey (TARGET_SCHEMA cfg) table) = None.

(** The five reads [prepare] makes for a table, in order. *)
Definition prepare_reads (cfg : Config) (table : string) : list (Conn * Query) :=
  [(SourceConn, QColumns (SOURCE_SCHEMA cfg) table);
   (TargetConn, QColumns (TARGET_SCHEMA cfg) table);
   (SourceConn, QRowCount (SOURCE_SCHEMA cfg) table);
   (TargetConn, QRowCount (TARGET_SCHEMA cfg) table);
   (TargetConn, QPrimaryKey (TARGET_SCHEMA cfg) table)].

(** The world once a line was read from the terminal as well. *)
Definition after_input (w : World Value T) (events : list (Event Value))
  : World Value T :=
  {| target := target w; stdin := tl (stdin w);
     log := log w ++ events; files := files w |}.

(** The log of the two catalog reads and of the two row counts. *)
Definition column_events (table : string) : list (Event Value) :=
  [EvColumns SourceConn table; EvColumns TargetConn table].

Definition count_events (table : string) : list (Event Value) :=
  [EvRowCount SourceConn table; EvRowCount TargetConn table].

(** What the transfer of a table may log after its SELECT: a batch of at
    least one and at most [size] tuples written with the table's
    statement, a commit, the rollback of the handler. *)
Definition transfer_event (size : nat) (query : string) (e : Event Value) : Prop :=
  match e with
  | EvExecuteMany q batch => q = query /\ 0 < length batch <= size
  | EvCommit | EvRollback => True
  | _ => False
  end.

(** A configured table found in the catalogs of both sides. *)
Definition on_both_sides (cfg : Config) (env : Env Value) (db : T) (t : string) : bool :=
  str_in t (s_tables (source env) (SOURCE_SCHEMA cfg))
  && str_in t (t_tables tgt db (TARGET_SCHEMA cfg)).

(** The quotient rounded up. *)
Definition ceil_div (n b : nat) : nat := (n + (b - 1)) / b.

(** Rows counted by the summary: those of the successful tables. *)
Definition rows_of_successes (results : list Result) : nat :=
  list_sum (map r_rows_migrated
                (filter (fun r => r_status r =? "success") results)).

(** Rows the results report as migrated, whatever their status. *)
Definition rows_of_all (results : list Result) : nat :=
  list_sum (map r_rows_migrated results).

End Vocabulary.

Arguments column_events {Value} table.
Arguments count_events {Value} table.
Arguments is_write {Value} e.
Arguments is_row_count {Value} e.
Arguments is_input {Value} e.

(** * Properties *)

(** ** Lists of column names *)

Lemma str_in_In (c : string) (l : list string) : str_in c l = true <-> In c l.
Proof.
  unfold str_in. rewrite existsb_exists. split.
  - intros [x [Hx Heq]]. apply String.eqb_eq in Heq. now subst.
  - intros H. exists c. split; [assumption | apply String.eqb_refl].
Qed.

Lemma str_in_not_In (c : string) (l : list string) : str_in c l = false <-> ~ In c l.
Proof.
  rewrite <- str_in_In. destruct (str_in c l); split; congruence.
Qed.

Lemma filter_swap (A : Type) (p q : A -> bool) (l : list A) :
  filter p (filter q l) = filter q (filter p l).
Proof.
  induction l as [|a l IH]; simpl; [reflexivity|].
  destruct (q a) eqn:Hq, (p a) eqn:Hp; simpl; rewrite ?Hq, ?Hp, IH; reflexivity.
Qed.

Lemma filter_true (A : Type) (p : A -> bool) (l : list A) :
  (forall a, p a = true) -> filter p l = l.
Proof.
  intros H. induction l as [|a l IH]; simpl; [reflexivity|].
  now rewrite H, IH.
Qed.

Lemma apply_mapping_incl (rule : option Mapping) (l : list string) :
  incl (apply_mapping rule l) l.
Proof.
  intros c. destruct rule as [[[ex|] [inc|]]|]; simpl;
    rewrite ?filter_In; tauto.
Qed.

(** The answers that lower to s are s and S. *)
Lemma lower_is_s (response : string) :
  lower response = "s" <-> response = "s" \/ response = "S".
Proof.
  split.
  - destruct response as [|c [|c' rest]]; simpl; try discriminate.
    destruct c as [[] [] [] [] [] [] [] []]; vm_compute; intros H;
      try discriminate; auto.
  - intros [-> | ->]; reflexivity.
Qed.

(** ** Column reconciliation *)

(** C5: for all column lists and every override rule (or none), the
    reconciliation the script computes, which excludes before it includes,
    is the list the specification's algorithm gives: include, then exclude,
    then keep the names the target has, in source order. *)
Theorem C5_reconcile_refines_spec :
  forall (sourceColumns targetColumns : list string) (rule : option Mapping),
    reconcile sourceColumns targetColumns rule
    = reconcile_spec sourceColumns targetColumns rule.
Proof.
  intros src tgt rule. unfold reconcile, reconcile_spec, common_of, apply_mapping.
  destruct rule as [[[ex|] [inc|]]|]; simpl; try reflexivity.
  f_equal. apply filter_swap.
Qed.

(** C8: the reconciled list is included in the source columns and in the
    target columns, and a rule with an empty exclude list and no include
    list reconciles as no rule does. *)
Theorem C8_reconcile_subset_and_empty_exclude :
  forall (sourceColumns targetColumns : list string) (rule : option Mapping),
    incl (reconcile sourceColumns targetColumns rule) sourceColumns
    /\ incl (reconcile sourceColumns targetColumns rule) targetColumns
    /\ reconcile sourceColumns targetColumns
         (Some {| exclude := Some []; include := None |})
       = reconcile sourceColumns targetColumns None.
Proof.
  intros src tgt rule. unfold reconcile, common_of. repeat split.
  - intros c Hc. apply filter_In in Hc. destruct Hc as [Hc _].
    now apply (apply_mapping_incl rule).
  - intros c Hc. apply filter_In in Hc. destruct Hc as [_ Hc].
    now apply str_in_In.
  - simpl. f_equal. apply filter_true. reflexivity.
Qed.

(** ** Primary key and conflict clause *)

Lemma use_pk_true (k : string) (common_columns : list string) :
  use_pk (Some k) common_columns = true <-> k <> EmptyString /\ In k common_columns.
Proof.
  unfold use_pk. rewrite andb_true_iff, negb_true_iff, String.eqb_neq, str_in_In.
  reflexivity.
Qed.

Lemma append_assoc (a b c : string) : (a ++ b) ++ c = a ++ (b ++ c).
Proof.
  induction a as [|x a IH]; simpl; [reflexivity | now rewrite IH].
Qed.

Lemma upsert_text_render (target_schema table : string) (common_columns : list string)
  (k : string) :
  upsert_text target_schema table common_columns k
  = render (mkInsert target_schema table common_columns
              (DoUpdateSet k (filter (fun c => negb (c =? k)) common_columns))).
Proof.
  unfold upsert_text, render, render_conflict, update_clause, columns_str,
    placeholders, on_conflict, into_schema, into_table, insert_columns.
  rewrite !append_assoc. reflexivity.
Qed.


(** When the primary-key query returns several rows, the lookup keeps the
    first one ([fetchone]): the statement is the on-conflict-update keyed
    on that column when the name is non-empty and among the reconciled
    columns. *)
Lemma pk_column_of_composite :
  forall (first second : string) (more : list string)
         (target_schema table : string) (common_columns : list string),
    pk_column_of (first :: second :: more) = Some first
    /\ insert_query target_schema table common_columns
         (pk_column_of (first :: second :: more))
       = if negb (first =? EmptyString) && str_in first common_columns
         then upsert_text target_schema table common_columns first
         else do_nothing_text target_schema table common_columns.
Proof.
  intros. split; reflexivity.
Qed.


(** ** Cutting the rows into batches *)

Open Scope list_scope.

Ltac case_if :=
  match goal with
  | |- context [if ?c then _ else _] => destruct c eqn:?
  end.

Lemma ceil_div_spec (n b : nat) :
  0 < b -> 0 < n -> b * (ceil_div n b - 1) < n <= b * ceil_div n b.
Proof.
  intros Hb Hn. unfold ceil_div.
  pose proof (Nat.div_mod_eq (n + (b - 1)) b) as Hdm.
  pose proof (Nat.mod_upper_bound (n + (b - 1)) b ltac:(lia)) as Hlt.
  remember ((n + (b - 1)) / b) as k. remember ((n + (b - 1)) mod b) as m.
  destruct k as [|k]; [nia|].
  simpl. rewrite Nat.sub_0_r. nia.
Qed.

Section Batches.

Variable A : Type.
Variable size : nat.
Hypothesis size_pos : 0 < size.

Lemma batches_concat (batch ts : list (list A)) :
  concat (batches size batch ts) = batch ++ ts.
Proof.
  revert batch. induction ts as [|t rest IH]; intros batch; simpl.
  - destruct batch; simpl; [reflexivity | now rewrite !app_nil_r].
  - case_if; simpl; rewrite IH;
      rewrite <- ?app_assoc; reflexivity.
Qed.

Lemma batches_count (batch ts : list (list A)) :
  length batch < size ->
  length (batches size batch ts) = ceil_div (length batch + length ts) size.
Proof.
  unfold ceil_div. revert batch.
  induction ts as [|t rest IH]; intros batch Hlt; simpl.
  - destruct batch as [|x batch]; simpl.
    + symmetry. apply Nat.div_small. lia.
    + simpl in Hlt.
      apply Nat.div_unique with (r := length batch); lia.
  - rewrite length_app. simpl.
    destruct (Nat.leb_spec size (length batch + 1)) as [Hfull|Hroom]; simpl.
    + rewrite (IH [] size_pos). simpl.
      replace (length batch + S (length rest) + (size - 1))
        with (1 * size + (length rest + (size - 1))) by lia.
      rewrite Nat.div_add_l by lia. reflexivity.
    + rewrite IH by (rewrite length_app; simpl; lia).
      rewrite length_app. simpl. f_equal. lia.
Qed.

Lemma batches_nth (batch ts : list (list A)) (i : nat) :
  length batch < size ->
  i < length (batches size batch ts) ->
  nth i (batches size batch ts) [] = firstn size (skipn (size * i) (batch ++ ts)).
Proof.
  revert batch i. induction ts as [|t rest IH]; intros batch i Hlt Hi; simpl in *.
  - destruct batch as [|x batch]; simpl in *; [lia|].
    assert (i = 0) by lia. subst i. rewrite Nat.mul_0_r. simpl.
    rewrite app_nil_r. destruct size as [|s]; [lia|].
    simpl. f_equal. symmetry. apply firstn_all2. lia.
  - destruct (Nat.leb_spec size (length (batch ++ [t]))) as [Hfull|Hroom].
    + assert (Hlen : length (batch ++ [t]) = size)
        by (rewrite length_app in *; simpl in *; lia).
      replace (batch ++ t :: rest) with ((batch ++ [t]) ++ rest)
        by (rewrite <- app_assoc; reflexivity).
      destruct i as [|j]; simpl in *.
      * rewrite Nat.mul_0_r. simpl. rewrite firstn_app, Hlen, Nat.sub_diag.
        simpl. rewrite app_nil_r. symmetry. apply firstn_all2. lia.
      * rewrite (IH [] j size_pos) by lia. simpl.
        replace (size * S j) with (size * j + size) by lia.
        rewrite <- skipn_skipn. f_equal. f_equal.
        rewrite skipn_app, Hlen, Nat.sub_diag. simpl.
        rewrite skipn_all2 by lia. reflexivity.
    + rewrite (IH (batch ++ [t]) i) by assumption.
      rewrite <- app_assoc. reflexivity.
Qed.

Lemma batches_sizes (ts : list (list A)) (i : nat) :
  i < length (batches size [] ts) ->
  length (nth i (batches size [] ts) []) = Nat.min size (length ts - size * i).
Proof.
  intros Hi. rewrite batches_nth by (simpl; lia). simpl.
  rewrite length_firstn, length_skipn. reflexivity.
Qed.

End Batches.

(** ** The transfer loop *)

Section TransferProperties.

Variable Value : Type.
Variable T : Type.
Variable tgt : Target Value T.

Local Abbreviation World := (World Value T).

Lemma after_nil (w : World) : after w (target w) [] = w.
Proof.
  destruct w. unfold after. simpl. now rewrite app_nil_r.
Qed.

Lemma after_after (w : World) (db1 db2 : T) (e1 e2 : list (Event Value)) :
  after (after w db1 e1) db2 e2 = after w db2 (e1 ++ e2).
Proof.
  unfold after. simpl. now rewrite app_assoc.
Qed.

(** One batch: what [write_batch] does is what [db_write] says. *)
Lemma write_batch_eq (query : string) (batch : list (list Value)) (w : World) :
  write_batch tgt query batch w
  = match db_write tgt (target w) query batch with
    | (None, db') => (Ok tt, after w db' [EvExecuteMany query batch; EvCommit])
    | (Some msg, db') =>
        (Raised (DatabaseError msg),
         after w db' (attempt_events tgt (target w) query batch))
    end.
Proof.
  unfold write_batch, bind, executemany, commit, db_write, attempt_events.
  destruct (t_executemany tgt (target w) query batch) as [[msg|] db1]; simpl.
  - reflexivity.
  - destruct (t_commit tgt db1) as [[msg|] db2]; simpl;
      unfold after, set_target, emit; simpl; rewrite <- app_assoc; reflexivity.
Qed.

Variable size : nat.
Variable query : string.
Variable cols : list string.

(** When every row can be read and every batch is written and committed,
    the loop ends normally, having written the batches in order. *)
Lemma transfer_rows_success (rows : list (list (string * Value))) :
  forall (batch : list (list Value)) (n : nat) (w : World)
         (ts : list (list Value)) (db' : T),
    all_values cols rows = Some ts ->
    db_write_all tgt (target w) query (batches size batch ts) = Some db' ->
    transfer_rows tgt size query cols rows batch n w
    = (n + length (batch ++ ts), None,
       after w db' (write_events query (batches size batch ts))).
Proof.
  induction rows as [|row rest IH]; intros batch n w ts db' Hall Hdb; simpl in *.
  - injection Hall as <-. simpl in *. rewrite app_nil_r.
    destruct batch as [|b batch]; simpl in *.
    + injection Hdb as <-. now rewrite Nat.add_0_r, after_nil.
    + rewrite write_batch_eq.
      destruct (db_write tgt (target w) query (b :: batch)) as [[msg|] db1];
        [discriminate|].
      now injection Hdb as <-.
  - destruct (row_values row cols) as [e|values]; [discriminate|].
    destruct (all_values cols rest) as [more|] eqn:Hmore; [|discriminate].
    injection Hall as <-. simpl in Hdb |- *.
    destruct (Nat.leb size (length (batch ++ [values]))) eqn:Hfull; simpl in Hdb |- *.
    + rewrite write_batch_eq.
      destruct (db_write tgt (target w) query (batch ++ [values])) as [[msg|] db1];
        [discriminate|].
      rewrite (IH [] _ _ more db' eq_refl) by exact Hdb.
      rewrite after_after. simpl.
      rewrite !length_app. simpl. f_equal. f_equal. lia.
    + rewrite (IH (batch ++ [values]) n w more db' eq_refl Hdb).
      rewrite <- app_assoc. reflexivity.
Qed.

(** When every row can be read, the batches [done] are written and
    committed and the next one, [failed], raises, the loop is left with the
    rows of [done] counted and nothing attempted after [failed]. *)
Lemma transfer_rows_failure (rows : list (list (string * Value))) :
  forall (batch : list (list Value)) (n : nat) (w : World)
         (ts : list (list Value)) (done later : list (list (list Value)))
         (failed : list (list Value)) (msg : string) (dbk dbf : T),
    all_values cols rows = Some ts ->
    batches size batch ts = done ++ failed :: later ->
    db_write_all tgt (target w) query done = Some dbk ->
    db_write tgt dbk query failed = (Some msg, dbf) ->
    transfer_rows tgt size query cols rows batch n w
    = (n + length (concat done), Some (DatabaseError msg),
       after w dbf (write_events query done ++ attempt_events tgt dbk query failed)).
Proof.
  induction rows as [|row rest IH];
    intros batch n w ts done later failed msg dbk dbf Hall Hcut Hdone Hfail;
    simpl in *.
  - injection Hall as <-. simpl in Hcut.
    destruct batch as [|b batch]; [now destruct done|].
    destruct done as [|d done]; [|now destruct done].
    simpl in *. injection Hcut as <- <-. injection Hdone as <-.
    rewrite write_batch_eq, Hfail. now rewrite Nat.add_0_r.
  - destruct (row_values row cols) as [e|values]; [discriminate|].
    destruct (all_values cols rest) as [more|] eqn:Hmore; [|discriminate].
    injection Hall as <-. simpl in Hcut.
    destruct (Nat.leb size (length (batch ++ [values]))) eqn:Hfull.
    + destruct done as [|d done]; simpl in *.
      * injection Hcut as <- <-. injection Hdone as <-.
        rewrite write_batch_eq, Hfail. now rewrite Nat.add_0_r.
      * injection Hcut as <- Hcut. rewrite write_batch_eq.
        destruct (db_write tgt (target w) query (batch ++ [values])) as [[m|] db1];
          [discriminate|].
        rewrite (IH [] _ (after w db1 [EvExecuteMany query (batch ++ [values]); EvCommit])
                   more done later failed msg dbk dbf eq_refl Hcut Hdone Hfail).
        rewrite after_after. simpl. rewrite !length_app. simpl.
        f_equal. f_equal. lia.
    + exact (IH (batch ++ [values]) n w more done later failed msg dbk dbf
               eq_refl Hcut Hdone Hfail).
Qed.


(** A loop that ends normally read every row and had every batch written
    and committed. *)
Lemma transfer_rows_success_inv (rows : list (list (string * Value))) :
  forall (batch : list (list Value)) (n n' : nat) (w w' : World),
    transfer_rows tgt size query cols rows batch n w = (n', None, w') ->
    exists ts,
      all_values cols rows = Some ts
      /\ db_write_all tgt (target w) query (batches size batch ts) = Some (target w')
      /\ n' = n + length (batch ++ ts)
      /\ w' = after w (target w') (write_events query (batches size batch ts)).
Proof.
  induction rows as [|row rest IH]; intros batch n n' w w' Hrun; simpl in *.
  - exists []. rewrite app_nil_r. simpl. destruct batch as [|b batch].
    + injection Hrun as <- <-. now rewrite Nat.add_0_r, after_nil.
    + rewrite write_batch_eq in Hrun. simpl.
      destruct (db_write tgt (target w) query (b :: batch)) as [[msg|] db1];
        [discriminate|].
      injection Hrun as <- <-. simpl. auto.
  - destruct (row_values row cols) as [e|values]; [discriminate|].
    destruct (Nat.leb size (length (batch ++ [values]))) eqn:Hfull.
    + rewrite write_batch_eq in Hrun.
      destruct (db_write tgt (target w) query (batch ++ [values])) as [[msg|] db1] eqn:Hw;
        [discriminate|].
      apply IH in Hrun. destruct Hrun as [ts [Hall [Hdb [Hn Hw']]]].
      exists (values :: ts). rewrite Hall. simpl. rewrite Hfull. simpl. rewrite Hw.
      simpl in Hdb. repeat split; try assumption.
      * rewrite Hn, !length_app. simpl. lia.
      * rewrite Hw' at 1. now rewrite after_after.
    + apply IH in Hrun. destruct Hrun as [ts [Hall [Hdb [Hn Hw']]]].
      exists (values :: ts). rewrite Hall. simpl. rewrite Hfull.
      repeat split; try assumption.
      rewrite Hn, <- app_assoc. reflexivity.
Qed.

(** Whatever happens, the loop only moves the target and extends the log. *)
Lemma transfer_rows_after (rows : list (list (string * Value))) :
  forall (batch : list (list Value)) (n n' : nat) (oe : option Exn) (w w' : World),
    transfer_rows tgt size query cols rows batch n w = (n', oe, w') ->
    exists db events, w' = after w db events.
Proof.
  induction rows as [|row rest IH]; intros batch n n' oe w w' Hrun; simpl in *.
  - destruct batch as [|b batch].
    + injection Hrun as <- <- <-. exists (target w), []. now rewrite after_nil.
    + rewrite write_batch_eq in Hrun.
      destruct (db_write tgt (target w) query (b :: batch)) as [[msg|] db1];
        injection Hrun as <- <- <-; eauto.
  - destruct (row_values row cols) as [e|values].
    + injection Hrun as <- <- <-. exists (target w), []. now rewrite after_nil.
    + destruct (Nat.leb size (length (batch ++ [values]))).
      * rewrite write_batch_eq in Hrun.
        destruct (db_write tgt (target w) query (batch ++ [values])) as [[msg|] db1].
        -- injection Hrun as <- <- <-. eauto.
        -- apply IH in Hrun. destruct Hrun as [db [events ->]].
           rewrite after_after. eauto.
      * eapply IH; eassumption.
Qed.

End TransferProperties.

(** ** One table *)

Section TableProperties.

Variable Value : Type.
Variable T : Type.
Variable tgt : Target Value T.
Variable cfg : Config.
Variable env : Env Value.

Local Abbreviation World := (World Value T).

Lemma emit_after (e : Event Value) (w : World) : emit e w = after w (target w) [e].
Proof. reflexivity. Qed.

Lemma all_values_length (cols : list string) (rows : list (list (string * Value))) :
  forall ts, all_values cols rows = Some ts -> length ts = length rows.
Proof.
  induction rows as [|row rest IH]; intros ts H; simpl in *.
  - now injection H as <-.
  - destruct (row_values row cols); [discriminate|].
    destruct (all_values cols rest); [|discriminate].
    injection H as <-. simpl. f_equal. now apply IH.
Qed.

(** *** The statements that may raise *)

Lemma source_execute_eq (sel : string) (w : World) :
  source_execute tgt env sel w
  = (match s_raises (source env) (QSelect sel) with
     | Some msg => Raised (DatabaseError msg)
     | None => Ok (s_select (source env) sel)
     end,
     after w (target w) [EvSelect sel]).
Proof.
  unfold source_execute, raises.
  destruct (s_raises (source env) (QSelect sel)); reflexivity.
Qed.

Lemma on_exception_eq (table : string) (n : nat) (e : Exn) (w : World) :
  on_exception tgt table n e w
  = match t_rollback tgt (target w) with
    | (None, db) => (Ok (error_result table (exn_str e) n), after w db [EvRollback])
    | (Some lost, db) => (Raised (DatabaseError lost), after w db [EvRollback])
    end.
Proof.
  unfold on_exception, bind, rollback, ret.
  destruct (t_rollback tgt (target w)) as [[lost|] db]; reflexivity.
Qed.

Lemma transfer_success (table sel ins : string) (cols : list string) (w : World)
  (ts : list (list Value)) (db' : T) :
  s_raises (source env) (QSelect sel) = None ->
  all_values cols (s_select (source env) sel) = Some ts ->
  db_write_all tgt (target w) ins (batches batch_size [] ts) = Some db' ->
  transfer tgt env table sel ins cols w
  = (Ok (success_result table (length ts) (length cols)),
     after w db' (EvSelect sel :: write_events ins (batches batch_size [] ts))).
Proof.
  intros Hsel Hall Hdb. unfold transfer. rewrite source_execute_eq, Hsel.
  rewrite (transfer_rows_success tgt batch_size ins cols _ [] 0
             (after w (target w) [EvSelect sel]) Hall Hdb).
  rewrite after_after. reflexivity.
Qed.

(** The transfer up to the handler, when a batch write raises. *)
Lemma transfer_handles (table sel ins : string) (cols : list string) (w : World)
  (ts : list (list Value)) (done later : list (list (list Value)))
  (failed : list (list Value)) (msg : string) (dbk dbf : T) :
  s_raises (source env) (QSelect sel) = None ->
  all_values cols (s_select (source env) sel) = Some ts ->
  batches batch_size [] ts = done ++ failed :: later ->
  db_write_all tgt (target w) ins done = Some dbk ->
  db_write tgt dbk ins failed = (Some msg, dbf) ->
  transfer tgt env table sel ins cols w
  = on_exception tgt table (length (concat done)) (DatabaseError msg)
      (after w dbf (EvSelect sel :: write_events ins done
                      ++ attempt_events tgt dbk ins failed)).
Proof.
  intros Hsel Hall Hcut Hdone Hfail. unfold transfer.
  rewrite source_execute_eq, Hsel.
  rewrite (@transfer_rows_failure _ _ tgt batch_size ins cols _ [] 0
             (after w (target w) [EvSelect sel]) ts done later failed msg dbk dbf
             Hall Hcut Hdone Hfail).
  rewrite after_after. reflexivity.
Qed.

Lemma transfer_failure (table sel ins : string) (cols : list string) (w : World)
  (ts : list (list Value)) (done later : list (list (list Value)))
  (failed : list (list Value)) (msg : string) (dbk dbf dbr : T) :
  s_raises (source env) (QSelect sel) = None ->
  all_values cols (s_select (source env) sel) = Some ts ->
  batches batch_size [] ts = done ++ failed :: later ->
  db_write_all tgt (target w) ins done = Some dbk ->
  db_write tgt dbk ins failed = (Some msg, dbf) ->
  t_rollback tgt dbf = (None, dbr) ->
  transfer tgt env table sel ins cols w
  = (Ok (error_result table msg (length (concat done))),
     after w dbr
       (EvSelect sel :: write_events ins done
          ++ attempt_events tgt dbk ins failed ++ [EvRollback])).
Proof.
  intros Hsel Hall Hcut Hdone Hfail Hback.
  rewrite (@transfer_handles table sel ins cols w ts done later failed msg dbk dbf
             Hsel Hall Hcut Hdone Hfail).
  rewrite on_exception_eq. simpl. rewrite Hback, after_after. simpl.
  rewrite <- !app_assoc. reflexivity.
Qed.

(** The same when the rollback of the handler raises as well: its
    exception leaves the transfer. *)
Lemma transfer_failure_unhandled (table sel ins : string) (cols : list string)
  (w : World) (ts : list (list Value)) (done later : list (list (list Value)))
  (failed : list (list Value)) (msg lost : string) (dbk dbf dbr : T) :
  s_raises (source env) (QSelect sel) = None ->
  all_values cols (s_select (source env) sel) = Some ts ->
  batches batch_size [] ts = done ++ failed :: later ->
  db_write_all tgt (target w) ins done = Some dbk ->
  db_write tgt dbk ins failed = (Some msg, dbf) ->
  t_rollback tgt dbf = (Some lost, dbr) ->
  transfer tgt env table sel ins cols w
  = (Raised (DatabaseError lost),
     after w dbr
       (EvSelect sel :: write_events ins done
          ++ attempt_events tgt dbk ins failed ++ [EvRollback])).
Proof.
  intros Hsel Hall Hcut Hdone Hfail Hback.
  rewrite (@transfer_handles table sel ins cols w ts done later failed msg dbk dbf
             Hsel Hall Hcut Hdone Hfail).
  rewrite on_exception_eq. simpl. rewrite Hback, after_after. simpl.
  rewrite <- !app_assoc. reflexivity.
Qed.

(** The transfer returns a result for its table, unless the rollback of
    its handler raises. *)
Lemma transfer_after (table sel ins : string) (cols : list string) (w : World) :
  exists o db events,
    transfer tgt env table sel ins cols w = (o, after w db events)
    /\ match o with
       | Ok r => r_table r = table
       | Raised e => exists lost, e = DatabaseError lost
       end.
Proof.
  unfold transfer. rewrite source_execute_eq.
  destruct (s_raises (source env) (QSelect sel)) as [msg|].
  - rewrite on_exception_eq. simpl.
    destruct (t_rollback tgt (target w)) as [[lost|] db];
      rewrite after_after; eexists _, _, _; (split; [reflexivity|]); simpl; eauto.
  - destruct (transfer_rows tgt batch_size ins cols (s_select (source env) sel) [] 0
                (after w (target w) [EvSelect sel])) as [[n oe] w'] eqn:Hrun.
    destruct (transfer_rows_after _ _ _ _ _ _ _ _ Hrun) as [db [events ->]].
    rewrite after_after. destruct oe as [e|].
    + rewrite on_exception_eq. simpl.
      destruct (t_rollback tgt db) as [[lost|] dbr];
        rewrite after_after; eexists _, _, _; (split; [reflexivity|]); simpl; eauto.
    + eexists _, db, _. split; reflexivity.
Qed.

Lemma transfer_success_inv (table sel ins : string) (cols : list string)
  (w w' : World) (r : Result) :
  transfer tgt env table sel ins cols w = (Ok r, w') ->
  r_status r = "success" ->
  exists ts,
    all_values cols (s_select (source env) sel) = Some ts
    /\ db_write_all tgt (target w) ins (batches batch_size [] ts) = Some (target w')
    /\ r = success_result table (length ts) (length cols)
    /\ w' = after w (target w')
              (EvSelect sel :: write_events ins (batches batch_size [] ts))
    /\ s_raises (source env) (QSelect sel) = None.
Proof.
  unfold transfer. rewrite source_execute_eq. intros Hrun Hstatus.
  destruct (s_raises (source env) (QSelect sel)) as [msg|].
  - rewrite on_exception_eq in Hrun. simpl in Hrun.
    destruct (t_rollback tgt (target w)) as [[lost|] db]; [discriminate|].
    injection Hrun as <- <-. discriminate.
  - destruct (transfer_rows tgt batch_size ins cols (s_select (source env) sel) [] 0
                (after w (target w) [EvSelect sel])) as [[n oe] w1] eqn:Hloop.
    destruct oe as [e|].
    + rewrite on_exception_eq in Hrun.
      destruct (t_rollback tgt (target w1)) as [[lost|] db]; [discriminate|].
      injection Hrun as <- <-. discriminate.
    + injection Hrun as <- <-.
      apply transfer_rows_success_inv in Hloop.
      destruct Hloop as [ts [Hall [Hdb [Hn Hw]]]].
      exists ts. simpl in *. subst n. repeat split; try assumption.
      rewrite Hw at 1. now rewrite after_after.
Qed.

(** *** The paths through [prepare] *)

Ltac run_prepare :=
  unfold prepare, bind, ret, get_table_columns, get_table_row_count,
    input, pk_query, raises, reconciled,
    columns_answer, counts_answer, key_answers in *; simpl in *.

Ltac answered :=
  repeat match goal with
         | H : _ /\ _ |- _ => destruct H
         | H : s_raises _ _ = None |- _ => rewrite H; clear H; simpl
         | H : t_raises _ _ _ = None |- _ => rewrite H; clear H; simpl
         end.

Ltac same_world :=
  unfold after, after_input, emit, column_events, count_events; simpl;
  rewrite <- ?app_assoc; simpl; reflexivity.

Lemma is_empty_false (A : Type) (l : list A) : l <> [] -> is_empty l = false.
Proof. destruct l; [congruence | reflexivity]. Qed.





(** Past the guards, [prepare] ends with the primary-key query: the plan
    when it answers, its exception when it raises. *)
Lemma prepare_target_empty_key (table : string) (w : World) :
  columns_answer tgt cfg env table (target w) ->
  counts_answer tgt cfg env table (target w) ->
  reconciled tgt cfg env table (target w) <> [] ->
  s_row_count (source env) (SOURCE_SCHEMA cfg) table <> 0 ->
  t_row_count tgt (target w) (TARGET_SCHEMA cfg) table = 0 ->
  prepare tgt cfg env table w
  = (match t_raises tgt (target w) (QPrimaryKey (TARGET_SCHEMA cfg) table) with
     | Some msg => Raised (DatabaseError msg)
     | None => Ok (inr (plan_of tgt cfg env table (target w)))
     end,
     after w (target w)
       (column_events table ++ count_events table ++ [EvPrimaryKey table])).
Proof.
  intros Hcols Hcounts Hc Hs Ht. run_prepare. destruct Hcols as [Hc1 Hc2].
  rewrite Hc1. simpl. rewrite Hc2. simpl. rewrite (is_empty_false Hc).
  answered. rewrite (proj2 (Nat.eqb_neq _ _) Hs). simpl.
  rewrite Ht. simpl.
  destruct (t_raises tgt (target w) (QPrimaryKey (TARGET_SCHEMA cfg) table));
    f_equal; same_world.
Qed.

Lemma prepare_target_empty (table : string) (w : World) :
  columns_answer tgt cfg env table (target w) ->
  counts_answer tgt cfg env table (target w) ->
  key_answers tgt cfg table (target w) ->
  reconciled tgt cfg env table (target w) <> [] ->
  s_row_count (source env) (SOURCE_SCHEMA cfg) table <> 0 ->
  t_row_count tgt (target w) (TARGET_SCHEMA cfg) table = 0 ->
  prepare tgt cfg env table w
  = (Ok (inr (plan_of tgt cfg env table (target w))),
     after w (target w)
       (column_events table ++ count_events table ++ [EvPrimaryKey table])).
Proof.
  intros Hcols Hcounts Hkey Hc Hs Ht.
  rewrite (@prepare_target_empty_key table w Hcols Hcounts Hc Hs Ht).
  unfold key_answers in Hkey. now rewrite Hkey.
Qed.

Lemma prepare_confirmed_key (table : string) (w : World) (response : string)
  (rest : list string) :
  columns_answer tgt cfg env table (target w) ->
  counts_answer tgt cfg env table (target w) ->
  reconciled tgt cfg env table (target w) <> [] ->
  s_row_count (source env) (SOURCE_SCHEMA cfg) table <> 0 ->
  t_row_count tgt (target w) (TARGET_SCHEMA cfg) table <> 0 ->
  stdin w = response :: rest ->
  lower response = "s" ->
  prepare tgt cfg env table w
  = (match t_raises tgt (target w) (QPrimaryKey (TARGET_SCHEMA cfg) table) with
     | Some msg => Raised (DatabaseError msg)
     | None => Ok (inr (plan_of tgt cfg env table (target w)))
     end,
     after_input w
       (column_events table ++ count_events table
          ++ [EvInput (Some table); EvPrimaryKey table])).
Proof.
  intros Hcols Hcounts Hc Hs Ht Hin Hyes. run_prepare. destruct Hcols as [Hc1 Hc2].
  rewrite Hc1. simpl. rewrite Hc2. simpl. rewrite (is_empty_false Hc).
  answered. rewrite (proj2 (Nat.eqb_neq _ _) Hs). simpl.
  replace (0 <? t_row_count tgt (target w) (TARGET_SCHEMA cfg) table)%nat with true
    by (symmetry; apply Nat.ltb_lt; lia).
  simpl. rewrite Hin. simpl. rewrite Hyes. simpl.
  destruct (t_raises tgt (target w) (QPrimaryKey (TARGET_SCHEMA cfg) table));
    f_equal; unfold after_input; rewrite Hin; same_world.
Qed.

Lemma prepare_confirmed (table : string) (w : World) (response : string)
  (rest : list string) :
  columns_answer tgt cfg env table (target w) ->
  counts_answer tgt cfg env table (target w) ->
  key_answers tgt cfg table (target w) ->
  reconciled tgt cfg env table (target w) <> [] ->
  s_row_count (source env) (SOURCE_SCHEMA cfg) table <> 0 ->
  t_row_count tgt (target w) (TARGET_SCHEMA cfg) table <> 0 ->
  stdin w = response :: rest ->
  lower response = "s" ->
  prepare tgt cfg env table w
  = (Ok (inr (plan_of tgt cfg env table (target w))),
     after_input w
       (column_events table ++ count_events table
          ++ [EvInput (Some table); EvPrimaryKey table])).
Proof.
  intros Hcols Hcounts Hkey Hc Hs Ht Hin Hyes.
  rewrite (@prepare_confirmed_key table w response rest Hcols Hcounts Hc Hs Ht Hin Hyes).
  unfold key_answers in Hkey. now rewrite Hkey.
Qed.

Ltac prepare_cases :=
  unfold prepare, bind, ret, get_table_columns, get_table_row_count,
    input, pk_query, raises; simpl;
  repeat (first [ case_if
                | match goal with
                  | |- context [match stdin ?x with _ => _ end] =>
                      destruct (stdin x) eqn:?
                  | |- context [match s_raises ?s ?q with _ => _ end] =>
                      destruct (s_raises s q) eqn:?
                  | |- context [match t_raises ?t ?db ?q with _ => _ end] =>
                      destruct (t_raises t db q) eqn:?
                  end ]; simpl).

(** A table that [prepare] ends is reported as skipped. *)
Lemma prepare_inl (table : string) (w w0 : World) (res : Result) :
  prepare tgt cfg env table w = (Ok (inl res), w0) ->
  exists reason, res = skip table reason.
Proof.
  prepare_cases; intros H; try discriminate; injection H as <- <-; eauto.
Qed.

Lemma migrate_table_table (table : string) (w w' : World) (r : Result) :
  migrate_table tgt cfg env table w = (Ok r, w') -> r_table r = table.
Proof.
  unfold migrate_table, bind.
  destruct (prepare tgt cfg env table w) as [[[res|plan]|e] w0] eqn:Hp.
  - intros H. injection H as <- <-.
    destruct (prepare_inl _ _ Hp) as [reason ->]. reflexivity.
  - destruct (transfer_after table (plan_select plan) (plan_insert plan)
                (plan_columns plan) w0) as [o [db [ev [-> Ht]]]].
    intros H. injection H as -> _. exact Ht.
  - discriminate.
Qed.

(** The batches before the one that fails are full. *)
Lemma batches_prefix_full (A : Type) (size : nat) (ts : list (list A))
  (done later : list (list (list A))) (failed : list (list A)) :
  0 < size ->
  batches size [] ts = done ++ failed :: later ->
  length (concat done) = size * length done.
Proof.
  intros Hpos Hcut.
  assert (Hfull : forall i, i < length done -> length (nth i done []) = size).
  { intros i Hi.
    assert (Hlen : length (batches size [] ts) = length done + S (length later))
      by (rewrite Hcut, length_app; reflexivity).
    pose proof (@batches_sizes A size Hpos ts i ltac:(lia)) as Hsz.
    rewrite Hcut, app_nth1 in Hsz by assumption. rewrite Hsz.
    pose proof (@batches_count A size Hpos [] ts Hpos) as Hcount.
    simpl in Hcount. rewrite Hlen in Hcount.
    destruct (Nat.eq_dec (length ts) 0) as [Hz|Hnz].
    - rewrite Hz in Hcount. unfold ceil_div in Hcount. simpl in Hcount.
      rewrite Nat.div_small in Hcount by lia. lia.
    - pose proof (@ceil_div_spec (length ts) size Hpos ltac:(lia)) as [Hlo _].
      rewrite <- Hcount in Hlo. nia. }
  clear Hcut. induction done as [|d done IH]; simpl; [lia|].
  rewrite length_app, IH.
  - pose proof (Hfull 0 ltac:(simpl; lia)) as H0. simpl in H0. lia.
  - intros i Hi. apply (Hfull (S i)). simpl. lia.
Qed.



(** C4: when the SELECT answers, the cursor yields N > 0 rows and every
    batch of them is written and committed, the table is a success with N
    rows; the log of the transfer is the writes of the batches one after
    the other, each followed by its commit; there are ceil(N/1000) batches;
    batch number i holds the rows 1000*i, ..., in cursor order (1000 of
    them, or the remainder for the last one), and the batch sizes add up
    to N. *)
Theorem C4_batches_committed_in_order :
  forall (table : string) (w w0 : World) (plan : Plan)
         (ts : list (list Value)) (db' : T),
    prepare tgt cfg env table w = (Ok (inr plan), w0) ->
    s_raises (source env) (QSelect (plan_select plan)) = None ->
    all_values (plan_columns plan) (s_select (source env) (plan_select plan)) = Some ts ->
    0 < length (s_select (source env) (plan_select plan)) ->
    db_write_all tgt (target w0) (plan_insert plan) (batches batch_size [] ts) = Some db' ->
    let N := length (s_select (source env) (plan_select plan)) in
    let bs := batches batch_size [] ts in
    migrate_table tgt cfg env table w
    = (Ok (success_result table N (length (plan_columns plan))),
       after w0 db' (EvSelect (plan_select plan) :: write_events (plan_insert plan) bs))
    /\ batch_size = 1000
    /\ length bs = ceil_div N batch_size
    /\ batch_size * (length bs - 1) < N <= batch_size * length bs
    /\ list_sum (map (@length (list Value)) bs) = N
    /\ concat bs = ts
    /\ (forall i, i < length bs ->
          nth i bs [] = firstn batch_size (skipn (batch_size * i) ts)
          /\ length (nth i bs []) = Nat.min batch_size (N - batch_size * i)).
Proof.
  intros table w w0 plan ts db' Hprep Hsel Hall Hpos Hdb N bs.
  assert (Hsize : 0 < batch_size) by (unfold batch_size; lia).
  assert (HN : length ts = N) by (apply all_values_length with (1 := Hall)).
  assert (Hcount : length bs = ceil_div N batch_size).
  { unfold bs. rewrite batches_count by assumption. simpl. now rewrite HN. }
  repeat split.
  - unfold migrate_table, bind. rewrite Hprep.
    rewrite (@transfer_success table _ _ _ w0 ts db' Hsel Hall Hdb). now rewrite HN.
  - exact Hcount.
  - rewrite Hcount. apply ceil_div_spec; assumption.
  - rewrite Hcount. apply ceil_div_spec; assumption.
  - rewrite <- length_concat. unfold bs. now rewrite batches_concat.
  - unfold bs. now rewrite batches_concat.
  - unfold bs. now rewrite batches_nth.
  - unfold bs. rewrite batches_sizes by assumption. now rewrite HN.
Qed.

(** C10: a success reports as rows migrated the number of rows the cursor
    yielded, which is the number of rows handed to executemany over the
    batches, whatever the target did with them: the count does not depend
    on the target connection beyond its not raising. *)
Theorem C10_rows_migrated_counts_rows_sent :
  forall (table : string) (w w' : World) (r : Result),
    migrate_table tgt cfg env table w = (Ok r, w') ->
    r_status r = "success" ->
    exists (plan : Plan) (w0 : World) (ts : list (list Value)),
      prepare tgt cfg env table w = (Ok (inr plan), w0)
      /\ all_values (plan_columns plan) (s_select (source env) (plan_select plan)) = Some ts
      /\ r_rows_migrated r = length (s_select (source env) (plan_select plan))
      /\ r_rows_migrated r
         = list_sum (map (@length (list Value)) (batches batch_size [] ts))
      /\ log w' = log w0 ++ EvSelect (plan_select plan)
                    :: write_events (plan_insert plan) (batches batch_size [] ts).
Proof.
  intros table w w' r. unfold migrate_table, bind.
  destruct (prepare tgt cfg env table w) as [[[res|plan]|e] w0] eqn:Hp.
  - intros H Hst. injection H as <- <-.
    destruct (prepare_inl _ _ Hp) as [reason ->]. discriminate.
  - intros H Hst.
    destruct (transfer_success_inv _ _ _ _ _ H Hst) as [ts [Hall [Hdb [-> [Hw _]]]]].
    exists plan, w0, ts. repeat split; try assumption; simpl.
    + now apply all_values_length with (1 := Hall).
    + rewrite <- length_concat, batches_concat. reflexivity.
    + rewrite Hw. reflexivity.
  - discriminate.
Qed.

(** *** The run *)

Lemma summarize_from (results : list Result) (t0 : Totals) :
  total_rows (fold_left count_result results t0)
  = total_rows t0 + rows_of_successes results.
Proof.
  unfold rows_of_successes. revert t0.
  induction results as [|r rest IH]; intros t0; simpl; [lia|].
  rewrite IH. unfold count_result.
  destruct (r_status r =? "success")%string; simpl; [lia|].
  destruct (r_status r =? "error")%string; simpl; lia.
Qed.

Lemma summarize_total (results : list Result) :
  total_rows (summarize results) = rows_of_successes results.
Proof.
  unfold summarize. now rewrite summarize_from.
Qed.

Lemma rows_of_successes_le (results : list Result) :
  rows_of_successes results <= rows_of_all results.
Proof.
  unfold rows_of_successes, rows_of_all.
  induction results as [|r rest IH]; simpl; [lia|].
  destruct (r_status r =? "success")%string; simpl; lia.
Qed.

(** The loop over the tables returns one result per table, in order. *)
Lemma migrate_all_tables (tables : list string) :
  forall (acc results : list Result) (w w' : World),
    migrate_all tgt cfg env tables acc w = (Ok results, w') ->
    exists rs, results = acc ++ rs /\ map r_table rs = tables.
Proof.
  induction tables as [|table rest IH]; intros acc results w w' H; simpl in H.
  - injection H as <- <-. exists []. now rewrite app_nil_r.
  - unfold bind in H.
    destruct (migrate_table tgt cfg env table w) as [[r|e] w1] eqn:Hr; [|discriminate].
    apply IH in H. destruct H as [rs [-> Hrs]].
    exists (r :: rs). rewrite <- app_assoc. simpl. split; [reflexivity|].
    now rewrite (migrate_table_table _ _ Hr), Hrs.
Qed.

(** C2, amended: when the connections are up, the enumerated list is not
    empty, the operator confirms and the loop over the tables returns
    [results], the run saves under the stamped name a report with the
    timestamp, the two schema names, the results in the order of the
    enumerated tables, and a total that is the sum of the rows migrated of
    the results whose status is success; the rows an error result carries
    are in that result and not in the total. *)
Theorem C2_report_total_counts_successes :
  forall (w w1 w2 w3 : World) (tables : list string) (response : string)
         (results : list Result),
    verify_connections env = true ->
    enumerate tgt cfg env w = (Ok tables, w1) ->
    tables <> [] ->
    input None w1 = (Ok response, w2) ->
    lower response = "s" ->
    migrate_all tgt cfg env tables [] w2 = (Ok results, w3) ->
    exists w',
      main tgt cfg env w = (Ok tt, w')
      /\ files w'
         = (log_file env,
            JDict [("timestamp", JStr (now_iso env));
                   ("source_schema", JStr (SOURCE_SCHEMA cfg));
                   ("target_schema", JStr (TARGET_SCHEMA cfg));
                   ("results", JList (map result_json results));
                   ("total_rows_migrated",
                    JInt (Z.of_nat (rows_of_successes results)))])
           :: files w3
      /\ map r_table results = tables
      /\ rows_of_successes results <= rows_of_all results.
Proof.
  intros w w1 w2 w3 tables response results Hup Henum Hne Hin Hyes Hall.
  unfold main. rewrite Hup. simpl. unfold finally, bind.
  rewrite Henum, (is_empty_false Hne), Hin, Hyes. simpl. rewrite Hall.
  eexists. split; [reflexivity|]. split; [|split].
  - simpl. unfold report. now rewrite summarize_total.
  - destruct (migrate_all_tables _ _ _ Hall) as [rs [-> Hrs]]. exact Hrs.
  - apply rows_of_successes_le.
Qed.

End TableProperties.

(** * The properties on the small database *)

Ltac by_computation :=
  repeat match goal with |- _ /\ _ => split end; vm_compute; reflexivity.

(** C1 fails in the code: for the composite key (token_a, token_b) of
    token_relations the lookup keeps token_a and does not report the key
    as missing; the statement sent is the on-conflict-update keyed on
    token_a alone and not the duplicate-skip one; the target has no unique
    constraint on token_a alone and rejects it, so that the batch is rolled
    back and the table ends in error with no row migrated.  The
    duplicate-skip statement for the same row is accepted. *)
Theorem C1_composite_key_upsert_is_rejected :
  Toy.primary_key (Toy.relations []) = ["token_a"; "token_b"]
  /\ pk_column_of ["token_a"; "token_b"] = Some "token_a"
  /\ migrate_table Toy.tgt Toy.cfg Toy.env_f "token_relations" Toy.world_f
     = (Ok (error_result "token_relations"
              "there is no unique or exclusion constraint matching the ON CONFLICT specification"
              0),
        after Toy.world_f (target Toy.world_f)
          [EvColumns SourceConn "token_relations";
           EvColumns TargetConn "token_relations";
           EvRowCount SourceConn "token_relations";
           EvRowCount TargetConn "token_relations";
           EvPrimaryKey "token_relations";
           EvSelect (select_query "arbitrage" "token_relations"
                       ["token_a"; "token_b"; "weight"]);
           EvExecuteMany
             (upsert_text "mig_topology" "token_relations"
                ["token_a"; "token_b"; "weight"] "token_a")
             [[1; 2; 5]%Z];
           EvRollback])
  /\ (upsert_text "mig_topology" "token_relations"
        ["token_a"; "token_b"; "weight"] "token_a"
      =? do_nothing_text "mig_topology" "token_relations"
           ["token_a"; "token_b"; "weight"])%string = false
  /\ fst (t_executemany Toy.tgt (target Toy.world_f)
            (do_nothing_text "mig_topology" "token_relations"
               ["token_a"; "token_b"; "weight"])
            [[1; 2; 5]%Z]) = None.
Proof.
  by_computation.
Qed.

(** C3 fails in the code when the connection is lost: in scenario L the
    first batch write of tokens raises because the server dropped the
    connection, the rollback of the handler raises in its turn, and its
    exception leaves migrate_table, the loop over the tables and the run:
    no call is made for pools, which follows tokens in the configured
    order, no result is recorded for tokens, and no report is written; the
    connections are closed and the exception reaches the caller. *)
Theorem C3_lost_connection_aborts_run :
  TABLES_TO_MIGRATE Toy.cfg = ["tokens"; "pools"]
  /\ fst (enumerate Toy.tgt Toy.cfg Toy.env_l Toy.world_l) = Ok ["tokens"; "pools"]
  /\ fst (t_executemany Toy.tgt (target Toy.world_l)
            (upsert_text "mig_topology" "tokens" ["id"; "v"] "id")
            (Toy.numbered 0 2))
     = Some "server closed the connection unexpectedly"
  /\ fst (main Toy.tgt Toy.cfg Toy.env_l Toy.world_l)
     = Raised (DatabaseError "connection already closed")
  /\ log (snd (main Toy.tgt Toy.cfg Toy.env_l Toy.world_l))
     = [EvTables SourceConn; EvTables TargetConn; EvInput None;
        EvColumns SourceConn "tokens"; EvColumns TargetConn "tokens";
        EvRowCount SourceConn "tokens"; EvRowCount TargetConn "tokens";
        EvPrimaryKey "tokens";
        EvSelect (select_query "arbitrage" "tokens" ["id"; "v"]);
        EvExecuteMany (upsert_text "mig_topology" "tokens" ["id"; "v"] "id")
          (Toy.numbered 0 2);
        EvRollback;
        EvClose SourceConn; EvClose TargetConn]
  /\ files (snd (main Toy.tgt Toy.cfg Toy.env_l Toy.world_l)) = [].
Proof.
  by_computation.
Qed.


(** C2 as stated fails: in scenario A the table tokens ends in error after
    a first batch of 1000 rows was committed, and pools succeeds with 2
    rows; the report's total is 2, the rows migrated across the tables
    are 1002. *)
Lemma C2_total_counterexample :
  fst (main Toy.tgt Toy.cfg Toy.env_a Toy.world_a) = Ok tt
  /\ files (snd (main Toy.tgt Toy.cfg Toy.env_a Toy.world_a))
     = [("migration_log_20240101_120000.json",
         JDict
           [("timestamp", JStr "2024-01-01T12:00:00");
            ("source_schema", JStr "arbitrage");
            ("target_schema", JStr "mig_topology");
            ("results",
             JList
               [JDict [("table", JStr "tokens"); ("status", JStr "error");
                       ("error", JStr "new row violates check constraint");
                       ("rows_migrated", JInt 1000)];
                JDict [("table", JStr "pools"); ("status", JStr "success");
                       ("rows_migrated", JInt 2);
                       ("columns_migrated", JInt 2)]]);
            ("total_rows_migrated", JInt 2)])]
  /\ length (Toy.table_rows
               (Toy.committed (target (snd (main Toy.tgt Toy.cfg Toy.env_a Toy.world_a))))
               "tokens") = 1000
  /\ length (Toy.table_rows
               (Toy.committed (target (snd (main Toy.tgt Toy.cfg Toy.env_a Toy.world_a))))
               "pools") = 2.
Proof.
  by_computation.
Qed.




(** C4 in scenario B: 2500 rows go in three batches of 1000, 1000 and 500. *)
Lemma C4_witness :
  fst (migrate_table Toy.tgt Toy.cfg Toy.env_b "tokens" Toy.world_b)
  = Ok (success_result "tokens" 2500 2)
  /\ map (@length (list Z)) (batches batch_size [] (Toy.numbered 0 2500))
     = [1000; 1000; 500]
  /\ ceil_div 2500 batch_size = 3.
Proof.
  pose (plan := plan_of Toy.tgt Toy.cfg Toy.env_b "tokens" (target Toy.world_b)).
  pose (w0 := snd (prepare Toy.tgt Toy.cfg Toy.env_b "tokens" Toy.world_b)).
  pose (db' := match db_write_all Toy.tgt (target w0) (plan_insert plan)
                       (batches batch_size [] (Toy.numbered 0 2500)) with
               | Some db => db
               | None => target w0
               end).
  pose proof (@C4_batches_committed_in_order Z Toy.DB Toy.tgt Toy.cfg Toy.env_b
                "tokens" Toy.world_b w0 plan (Toy.numbered 0 2500) db') as H.
  cbv zeta in H.
  destruct H as [Hrun _]; try (vm_compute; reflexivity).
  - vm_compute. apply Nat.leb_le. vm_compute. reflexivity.
  - split; [|split; vm_compute; reflexivity].
    rewrite Hrun. vm_compute. reflexivity.
Defined.

(** C10 in scenario C: two rows are read and sent, the target keeps one
    (the second collides with the first and is dropped by the conflict
    clause), and the result counts two. *)
Lemma C10_witness :
  fst (migrate_table Toy.tgt Toy.cfg Toy.env_c "tokens" Toy.world_c)
  = Ok (success_result "tokens" 2 2)
  /\ Toy.table_rows
       (Toy.committed
          (target (snd (migrate_table Toy.tgt Toy.cfg Toy.env_c "tokens" Toy.world_c))))
       "tokens"
     = [[1; 7]%Z]
  /\ exists (plan : Plan) (w0 : World Z Toy.DB) (ts : list (list Z)),
       prepare Toy.tgt Toy.cfg Toy.env_c "tokens" Toy.world_c = (Ok (inr plan), w0)
       /\ all_values (plan_columns plan) (s_select (source Toy.env_c) (plan_select plan))
          = Some ts
       /\ r_rows_migrated (success_result "tokens" 2 2)
          = length (s_select (source Toy.env_c) (plan_select plan))
       /\ r_rows_migrated (success_result "tokens" 2 2)
          = list_sum (map (@length (list Z)) (batches batch_size [] ts))
       /\ log (snd (migrate_table Toy.tgt Toy.cfg Toy.env_c "tokens" Toy.world_c))
          = log w0 ++ EvSelect (plan_select plan)
              :: write_events (plan_insert plan) (batches batch_size [] ts).
Proof.
  split; [vm_compute; reflexivity|]. split; [vm_compute; reflexivity|].
  apply (@C10_rows_migrated_counts_rows_sent Z Toy.DB Toy.tgt Toy.cfg Toy.env_c
           "tokens" Toy.world_c).
  - vm_compute. reflexivity.
  - reflexivity.
Defined.

(** C2 amended, in scenario A: the report holds both results and the total
    2 of the successful table. *)
Lemma C2_witness :
  exists w',
    main Toy.tgt Toy.cfg Toy.env_a Toy.world_a = (Ok tt, w')
    /\ files w'
       = (log_file Toy.env_a,
          JDict [("timestamp", JStr (now_iso Toy.env_a));
                 ("source_schema", JStr (SOURCE_SCHEMA Toy.cfg));
                 ("target_schema", JStr (TARGET_SCHEMA Toy.cfg));
                 ("results",
                  JList (map result_json
                           [error_result "tokens" "new row violates check constraint" 1000;
                            success_result "pools" 2 2]));
                 ("total_rows_migrated",
                  JInt (Z.of_nat
                          (rows_of_successes
                             [error_result "tokens" "new row violates check constraint" 1000;
                              success_result "pools" 2 2])))])
         :: []
    /\ map r_table [error_result "tokens" "new row violates check constraint" 1000;
                    success_result "pools" 2 2]
       = ["tokens"; "pools"]
    /\ rows_of_successes
         [error_result "tokens" "new row violates check constraint" 1000;
          success_result "pools" 2 2]
       <= rows_of_all
            [error_result "tokens" "new row violates check constraint" 1000;
             success_result "pools" 2 2].
Proof.
  pose (w1 := snd (enumerate Toy.tgt Toy.cfg Toy.env_a Toy.world_a)).
  pose (w2 := snd (input None w1)).
  pose (w3 := snd (migrate_all Toy.tgt Toy.cfg Toy.env_a ["tokens"; "pools"] [] w2)).
  assert (Hfiles : files w3 = []) by (vm_compute; reflexivity).
  rewrite <- Hfiles.
  apply (@C2_report_total_counts_successes Z Toy.DB Toy.tgt Toy.cfg Toy.env_a
           Toy.world_a w1 w2 w3 ["tokens"; "pools"] "s").
  - reflexivity.
  - vm_compute. reflexivity.
  - discriminate.
  - vm_compute. reflexivity.
  - reflexivity.
  - vm_compute. reflexivity.
Defined.

(** * Further properties of the script *)

(** ** Reconciliation and rows *)

(** X1: a name is reconciled exactly when the source has it, the target
    has it, the rule's exclude list (if any) does not name it and the
    rule's include list (if any) names it. *)
Theorem X1_reconcile_membership :
  forall (source_columns target_columns : list string) (rule : option Mapping)
         (c : string),
    In c (reconcile source_columns target_columns rule)
    <-> In c source_columns
        /\ In c target_columns
        /\ match rule with
           | None => True
           | Some mapping =>
               match exclude mapping with
               | Some ex => ~ In c ex
               | None => True
               end
               /\ match include mapping with
                  | Some inc => In c inc
                  | None => True
                  end
           end.
Proof.
  intros src tgt rule c. unfold reconcile, common_of, apply_mapping.
  destruct rule as [[[ex|] [inc|]]|]; simpl;
    rewrite ?filter_In, ?negb_true_iff, ?str_in_In, ?str_in_not_In; tauto.
Qed.

(** X2: reconciling column lists without repetition gives a list without
    repetition. *)
Theorem X2_reconcile_no_repetition :
  forall (source_columns target_columns : list string) (rule : option Mapping),
    NoDup source_columns ->
    NoDup (reconcile source_columns target_columns rule).
Proof.
  intros src tgt rule Hnd. unfold reconcile, common_of, apply_mapping.
  destruct rule as [[[ex|] [inc|]]|]; simpl; repeat apply NoDup_filter; exact Hnd.
Qed.

Lemma X2_witness :
  NoDup (reconcile ["pool_address"; "tvl_usd"; "avg_profit_usd"; "updated_at"]
           ["pool_address"; "tvl_usd"; "updated_at"; "extra"]
           (mapping_get "pool_statistics" (COLUMN_MAPPING script_config))).
Proof.
  apply X2_reconcile_no_repetition.
  repeat constructor; simpl; intuition discriminate.
Defined.

Section RowProperties.

Variable Value : Type.

(** X3: reading a dict row over a column list either gives one value per
    column, in the order of the columns, or raises the KeyError of the
    first column of the list that the row does not hold. *)
Theorem X3_row_values_in_column_order :
  forall (row : list (string * Value)) (common_columns : list string),
    match row_values row common_columns with
    | inr values => map (row_get row) common_columns = map Some values
    | inl e =>
        exists before col after_col,
          e = KeyError col
          /\ common_columns = before ++ col :: after_col
          /\ row_get row col = None
          /\ Forall (fun c => row_get row c <> None) before
    end.
Proof.
  intros row cols. induction cols as [|col cols IH]; simpl; [reflexivity|].
  destruct (row_get row col) as [v|] eqn:Hget.
  - destruct (row_values row cols) as [e|values].
    + destruct IH as [before [c [after_col [-> [-> [Hc Hbefore]]]]]].
      exists (col :: before), c, after_col. repeat split; try assumption.
      constructor; [congruence | assumption].
    + simpl. now rewrite IH.
  - exists [], col, cols. repeat split; [assumption | constructor].
Qed.

Lemma row_values_skip (k : string) (v : Value) (row : list (string * Value))
  (cols : list string) :
  ~ In k cols ->
  row_values ((k, v) :: row) cols = row_values row cols.
Proof.
  induction cols as [|c cols IH]; intros Hnot; simpl; [reflexivity|].
  simpl in Hnot.
  rewrite (proj2 (String.eqb_neq k c)) by intuition.
  rewrite IH by intuition. reflexivity.
Qed.

(** X4: when the column names are distinct, the dict row that pairs them
    with the values of a tuple reads back as that tuple. *)
Theorem X4_row_values_restores_tuple :
  forall (common_columns : list string) (tuple : list Value),
    NoDup common_columns ->
    length tuple = length common_columns ->
    row_values (combine common_columns tuple) common_columns = inr tuple.
Proof.
  intros cols. induction cols as [|c cols IH]; intros tuple Hnd Hlen.
  - destruct tuple; [reflexivity | discriminate].
  - destruct tuple as [|v tuple]; [discriminate|].
    inversion Hnd as [|? ? Hnot Hnd']; subst.
    simpl. rewrite String.eqb_refl.
    rewrite row_values_skip by assumption.
    rewrite IH by (simpl in Hlen; auto with arith). reflexivity.
Qed.

End RowProperties.

Lemma X4_witness :
  row_values (combine ["id"; "v"] [5; 7]%Z) ["id"; "v"] = inr [5; 7]%Z.
Proof.
  apply X4_row_values_restores_tuple.
  - repeat constructor; simpl; intuition discriminate.
  - reflexivity.
Defined.

(** X5: when every reconciled column is the key itself, the SET list of
    the on-conflict-update statement is empty: the statement text ends its
    conflict clause right after DO UPDATE SET. *)
Theorem X5_key_only_table_has_empty_set_list :
  forall (target_schema table k : string) (common_columns : list string),
    k <> EmptyString ->
    In k common_columns ->
    (forall c, In c common_columns -> c = k) ->
    update_clause common_columns k = EmptyString
    /\ insert_query target_schema table common_columns (Some k)
       = render (mkInsert target_schema table common_columns (DoUpdateSet k [])).
Proof.
  intros sch t k common Hne Hin Honly.
  assert (Hnil : filter (fun c => negb (c =? k))%string common = []).
  { clear Hin. induction common as [|c common IH]; simpl; [reflexivity|].
    rewrite (Honly c (or_introl eq_refl)), String.eqb_refl. simpl.
    apply IH. intros c' Hc'. apply Honly. now right. }
  split.
  - unfold update_clause. now rewrite Hnil.
  - unfold insert_query.
    replace (use_pk (Some k) common) with true
      by (symmetry; apply use_pk_true; auto).
    rewrite upsert_text_render. now rewrite Hnil.
Qed.

Lemma X5_witness :
  update_clause ["pool_address"] "pool_address" = EmptyString
  /\ insert_query "mig_topology" "pools" ["pool_address"] (Some "pool_address")
     = render (mkInsert "mig_topology" "pools" ["pool_address"]
                 (DoUpdateSet "pool_address" [])).
Proof.
  apply X5_key_only_table_has_empty_set_list.
  - discriminate.
  - simpl. auto.
  - simpl. intros c [<-|[]]. reflexivity.
Defined.

(** ** The transfer, whatever its outcome *)

Section TransferInvariants.

Variable Value : Type.
Variable T : Type.
Variable tgt : Target Value T.
Variable env : Env Value.

Local Abbreviation World := (World Value T).

Ltac logged_batches :=
  repeat (apply Forall_cons || apply Forall_nil); simpl; intuition.

Lemma attempt_events_ok (size : nat) (db : T) (query : string)
  (batch : list (list Value)) :
  0 < length batch <= size ->
  Forall (transfer_event size query) (attempt_events tgt db query batch).
Proof.
  intros Hb. unfold attempt_events.
  destruct (t_executemany tgt db query batch) as [[msg|] db1];
    logged_batches.
Qed.

(** The loop logs nothing but batches of one to [size] tuples, written
    with the statement it was given, and their commits. *)
Lemma transfer_rows_events (size : nat) (query : string) (cols : list string)
  (rows : list (list (string * Value))) :
  0 < size ->
  forall (batch : list (list Value)) (n n' : nat) (oe : option Exn) (w w' : World),
    length batch < size ->
    transfer_rows tgt size query cols rows batch n w = (n', oe, w') ->
    exists db events,
      w' = after w db events /\ Forall (transfer_event size query) events.
Proof.
  intros Hsize.
  induction rows as [|row rest IH]; intros batch n n' oe w w' Hlt Hrun; simpl in Hrun.
  - destruct batch as [|b batch].
    + injection Hrun as <- <- <-. exists (target w), [].
      split; [now rewrite after_nil | constructor].
    + rewrite write_batch_eq in Hrun.
      assert (Hb : 0 < length (b :: batch) <= size) by (simpl in *; lia).
      destruct (db_write tgt (target w) query (b :: batch)) as [[msg|] db1];
        injection Hrun as <- <- <-; eexists _, _; split; try reflexivity.
      * now apply attempt_events_ok.
      * logged_batches.
  - destruct (row_values row cols) as [e|values].
    + injection Hrun as <- <- <-. exists (target w), [].
      split; [now rewrite after_nil | constructor].
    + destruct (Nat.leb_spec size (length (batch ++ [values]))) as [Hfull|Hroom].
      * assert (Hb : 0 < length (batch ++ [values]) <= size)
          by (rewrite length_app in *; simpl in *; lia).
        rewrite write_batch_eq in Hrun.
        destruct (db_write tgt (target w) query (batch ++ [values])) as [[msg|] db1].
        -- injection Hrun as <- <- <-. eexists _, _. split; [reflexivity|].
           now apply attempt_events_ok.
        -- apply IH in Hrun; [|simpl; lia].
           destruct Hrun as [db [events [-> Hev]]].
           rewrite after_after. eexists _, _. split; [reflexivity|].
           apply Forall_app. split; [|assumption].
           logged_batches.
      * eapply IH; eassumption.
Qed.

(** A loop left by an exception has counted whole batches only, and fewer
    rows than it was given. *)
Lemma transfer_rows_error_count (size : nat) (query : string) (cols : list string)
  (rows : list (list (string * Value))) :
  forall (batch : list (list Value)) (n n' : nat) (e : Exn) (w w' : World),
    length batch < size ->
    transfer_rows tgt size query cols rows batch n w = (n', Some e, w') ->
    exists k, n' = n + size * k /\ n' < n + length batch + length rows.
Proof.
  induction rows as [|row rest IH]; intros batch n n' e w w' Hlt Hrun; simpl in Hrun.
  - destruct batch as [|b batch]; [discriminate|].
    destruct (write_batch tgt query (b :: batch) w) as [[u|e'] w1];
      [discriminate|].
    injection Hrun as <- _ _. exists 0. rewrite Nat.mul_0_r. simpl. split; lia.
  - destruct (row_values row cols) as [e'|values].
    + injection Hrun as <- _ _. exists 0. rewrite Nat.mul_0_r. simpl. split; lia.
    + destruct (Nat.leb_spec size (length (batch ++ [values]))) as [Hfull|Hroom].
      * assert (Hb : length (batch ++ [values]) = size)
          by (rewrite length_app in *; simpl in *; lia).
        destruct (write_batch tgt query (batch ++ [values]) w) as [[u|e'] w1].
        -- apply IH in Hrun; [|simpl; lia].
           destruct Hrun as [k [-> Hk]]. exists (S k).
           rewrite Hb in *. rewrite length_app in Hb. simpl in *. split; nia.
        -- injection Hrun as <- _ _. exists 0. rewrite Nat.mul_0_r. simpl. split; lia.
      * apply IH in Hrun; [|assumption].
        destruct Hrun as [k [-> Hk]]. exists k.
        rewrite length_app in Hk. simpl in *. split; lia.
Qed.

(** What the [try] block and its handler do, whatever happens. *)
Lemma transfer_outcome :
  forall (table sel ins : string) (cols : list string) (w : World),
    exists (o : Outcome Result) (db : T) (events : list (Event Value)),
      transfer tgt env table sel ins cols w
      = (o, after w db (EvSelect sel :: events))
      /\ match o with
         | Ok r =>
             r_table r = table
             /\ (r_status r = "success" \/ r_status r = "error")
         | Raised e =>
             exists (before : T) (lost : string) (attempts : list (Event Value)),
               t_rollback tgt before = (Some lost, db)
               /\ e = DatabaseError lost
               /\ events = attempts ++ [EvRollback]
         end
      /\ Forall (transfer_event batch_size ins) events.
Proof.
  intros table sel ins cols w. unfold transfer. rewrite source_execute_eq.
  destruct (s_raises (source env) (QSelect sel)) as [msg|].
  - rewrite on_exception_eq. simpl.
    destruct (t_rollback tgt (target w)) as [[lost|] db] eqn:Hback;
      rewrite after_after; eexists _, db, [EvRollback];
      (split; [reflexivity|]); (split; [|logged_batches]); simpl.
    + exists (target w), lost, []. auto.
    + auto.
  - destruct (transfer_rows tgt batch_size ins cols (s_select (source env) sel) [] 0
                (after w (target w) [EvSelect sel])) as [[n oe] w1] eqn:Hrun.
    apply transfer_rows_events in Hrun;
      [|unfold batch_size; lia | unfold batch_size; simpl; lia].
    destruct Hrun as [db [events [-> Hev]]]. rewrite after_after.
    destruct oe as [e|].
    + rewrite on_exception_eq. simpl.
      destruct (t_rollback tgt db) as [[lost|] dbr] eqn:Hback;
        rewrite after_after; eexists _, dbr, (events ++ [EvRollback]);
        (split; [simpl; rewrite <- ?app_assoc; reflexivity|]);
        (split; [|apply Forall_app; split; [assumption | logged_batches]]); simpl.
      * exists db, lost, events. auto.
      * auto.
    + exists (Ok (success_result table n (length cols))), db, events.
      split; [reflexivity|]. split; [|assumption]. simpl. auto.
Qed.

(** X6: the transfer of a table ends with a success or an error result for
    the table, unless the rollback of its handler raises, in which case
    the exception of the rollback leaves it (and the log ends with that
    rollback).  Whatever the outcome, after its SELECT it logs only batches
    of 1 to 1000 tuples written with the table's insert statement, their
    commits and the rollback of the handler: no empty batch is ever sent,
    no row is counted and nothing is asked of the operator. *)
Theorem X6_transfer_outcome_and_bounded_batches :
  forall (table sel ins : string) (cols : list string) (w : World),
    exists (o : Outcome Result) (db : T) (events : list (Event Value)),
      transfer tgt env table sel ins cols w
      = (o, after w db (EvSelect sel :: events))
      /\ match o with
         | Ok r =>
             r_table r = table
             /\ (r_status r = "success" \/ r_status r = "error")
         | Raised e =>
             exists (before : T) (lost : string) (attempts : list (Event Value)),
               t_rollback tgt before = (Some lost, db)
               /\ e = DatabaseError lost
               /\ events = attempts ++ [EvRollback]
         end
      /\ Forall (transfer_event batch_size ins) events
      /\ Forall (fun e => is_input e = false /\ is_row_count e = false) events
      /\ ~ In (EvExecuteMany ins []) events.
Proof.
  intros table sel ins cols w.
  destruct (transfer_outcome table sel ins cols w)
    as [o [db [events [Hrun [Ho Hev]]]]].
  exists o, db, events. repeat (split; [assumption|]). split.
  - apply Forall_impl with (2 := Hev).
    intros e He. destruct e; simpl in *; try contradiction; auto.
  - intros Hin. rewrite Forall_forall in Hev. apply Hev in Hin.
    simpl in Hin. lia.
Qed.

(** The rows an error result reports. *)
Lemma transfer_error_count (table sel ins : string) (cols : list string)
  (w w' : World) (r : Result) :
  transfer tgt env table sel ins cols w = (Ok r, w') ->
  r_status r = "error" ->
  exists k,
    r_rows_migrated r = batch_size * k
    /\ match s_raises (source env) (QSelect sel) with
       | None => r_rows_migrated r < length (s_select (source env) sel)
       | Some msg => r_rows_migrated r = 0 /\ r_error r = Some msg
       end.
Proof.
  unfold transfer. rewrite source_execute_eq.
  destruct (s_raises (source env) (QSelect sel)) as [msg|].
  - rewrite on_exception_eq. simpl.
    destruct (t_rollback tgt (target w)) as [[lost|] db]; [discriminate|].
    intros H _. injection H as <- _. exists 0. simpl. split; [lia | auto].
  - destruct (transfer_rows tgt batch_size ins cols (s_select (source env) sel) [] 0
                (after w (target w) [EvSelect sel])) as [[n oe] w1] eqn:Hrun.
    destruct oe as [e|].
    + rewrite on_exception_eq.
      destruct (t_rollback tgt (target w1)) as [[lost|] db]; [discriminate|].
      intros H _. injection H as <- _.
      apply transfer_rows_error_count in Hrun; [|unfold batch_size; simpl; lia].
      exact Hrun.
    + intros H Hst. injection H as <- _. discriminate.
Qed.

End TransferInvariants.

(** ** One table, whatever its outcome *)

Section TableInvariants.

Variable Value : Type.
Variable T : Type.
Variable tgt : Target Value T.
Variable cfg : Config.
Variable env : Env Value.

Local Abbreviation World := (World Value T).

Ltac prepare_cases :=
  unfold prepare, bind, ret, get_table_columns, get_table_row_count,
    input, pk_query, raises; simpl;
  repeat (first [ case_if
                | match goal with
                  | |- context [match stdin ?x with _ => _ end] =>
                      destruct (stdin x) eqn:?
                  | |- context [match s_raises ?s ?q with _ => _ end] =>
                      destruct (s_raises s q) eqn:?
                  | |- context [match t_raises ?t ?db ?q with _ => _ end] =>
                      destruct (t_raises t db q) eqn:?
                  end ]; simpl).

Ltac reads_only :=
  eexists; split;
  [ unfold emit; simpl; rewrite <- ?app_assoc; simpl; reflexivity
  | repeat (apply Forall_cons || apply Forall_nil); reflexivity ].

(** What [prepare] leaves untouched. *)
Lemma prepare_frame :
  forall (table : string) (w : World),
    target (snd (prepare tgt cfg env table w)) = target w
    /\ files (snd (prepare tgt cfg env table w)) = files w
    /\ (stdin (snd (prepare tgt cfg env table w)) = stdin w
        \/ stdin (snd (prepare tgt cfg env table w)) = tl (stdin w))
    /\ exists events,
         log (snd (prepare tgt cfg env table w)) = log w ++ events
         /\ Forall (fun e => is_write e = false) events.
Proof.
  intros table w. prepare_cases;
    (split; [reflexivity|]; split; [reflexivity|]; split;
     [ first [ left; reflexivity | right; reflexivity | left; assumption ]
     | reads_only ]).
Qed.

(** An exception leaves [prepare] at the question, for want of a line to
    read, or at one of its five reads. *)
Lemma prepare_raised (table : string) (w w' : World) (e : Exn) :
  prepare tgt cfg env table w = (Raised e, w') ->
  (e = EOFError /\ stdin w = [])
  \/ exists c q msg,
       In (c, q) (prepare_reads cfg table)
       /\ raises tgt env c q w = Some msg
       /\ e = DatabaseError msg.
Proof.
  prepare_cases; intros H; try discriminate; injection H as <- _; auto;
    right;
    match goal with
    | Hq : s_raises _ ?q = Some ?m |- _ =>
        exists SourceConn, q, m;
        split; [simpl; auto 10 | split; [exact Hq | reflexivity]]
    | Hq : t_raises _ _ ?q = Some ?m |- _ =>
        exists TargetConn, q, m;
        split; [simpl; auto 10 | split; [exact Hq | reflexivity]]
    end.
Qed.

(** X7: before the transfer of a table starts, nothing is written: whatever
    [prepare] answers, the target is as it was, no file is written, at
    most one line was read from the terminal, and the calls logged hold no
    executemany, commit or rollback.  What it answers is a skipped result
    of zero rows, or the plan the catalogs of the two sides determine, or
    an exception: EOFError when the terminal has no line for its question,
    or the database error of one of its five reads (the columns and the
    row counts of the two sides, the primary key of the target). *)
Theorem X7_prepare_writes_nothing :
  forall (table : string) (w : World),
    (target (snd (prepare tgt cfg env table w)) = target w
     /\ files (snd (prepare tgt cfg env table w)) = files w
     /\ (stdin (snd (prepare tgt cfg env table w)) = stdin w
         \/ stdin (snd (prepare tgt cfg env table w)) = tl (stdin w))
     /\ exists events,
          log (snd (prepare tgt cfg env table w)) = log w ++ events
          /\ Forall (fun e => is_write e = false) events)
    /\ match fst (prepare tgt cfg env table w) with
       | Ok (inl r) => r_status r = "skipped" /\ r_rows_migrated r = 0
       | Ok (inr plan) => plan = plan_of tgt cfg env table (target w)
       | Raised e =>
           (e = EOFError /\ stdin w = [])
           \/ exists c q msg,
                In (c, q) (prepare_reads cfg table)
                /\ raises tgt env c q w = Some msg
                /\ e = DatabaseError msg
       end.
Proof.
  intros table w. split; [apply prepare_frame|].
  destruct (prepare tgt cfg env table w) as [[[res|plan]|e] w0] eqn:Hp; simpl.
  - revert Hp. prepare_cases; intros H; try discriminate;
      injection H as <- _; auto.
  - revert Hp. prepare_cases; intros H; try discriminate;
      injection H as <- _; reflexivity.
  - exact (prepare_raised _ _ Hp).
Qed.

(** A plan is settled only for a source that was counted with rows. *)
Lemma prepare_plan_source_rows (table : string) (w w0 : World) (plan : Plan) :
  prepare tgt cfg env table w = (Ok (inr plan), w0) ->
  s_row_count (source env) (SOURCE_SCHEMA cfg) table <> 0.
Proof.
  prepare_cases; intros H; try discriminate; now apply Nat.eqb_neq.
Qed.

(** X8: a table ends in one of these ways.  Either [migrate_table] returns
    a result for that table whose status is success, skipped or error; or
    it raises EOFError because the terminal had no line left for its
    question; or it raises the database error of one of the five reads
    made before the transfer; or it raises the database error of the
    rollback of its handler, the last call logged.  The exception of a
    batch write, of the SELECT or of a row lacking a column never leaves
    it otherwise. *)
Theorem X8_migrate_table_outcomes :
  forall (table : string) (w : World),
    match fst (migrate_table tgt cfg env table w) with
    | Ok r =>
        r_table r = table
        /\ (r_status r = "success" \/ r_status r = "skipped" \/ r_status r = "error")
    | Raised e =>
        (e = EOFError /\ stdin w = [])
        \/ (exists c q msg,
              In (c, q) (prepare_reads cfg table)
              /\ raises tgt env c q w = Some msg
              /\ e = DatabaseError msg)
        \/ (exists (before : T) (lost : string) (events : list (Event Value)),
              t_rollback tgt before
              = (Some lost, target (snd (migrate_table tgt cfg env table w)))
              /\ e = DatabaseError lost
              /\ log (snd (migrate_table tgt cfg env table w))
                 = log w ++ events ++ [EvRollback])
    end.
Proof.
  intros table w. unfold migrate_table, bind.
  pose proof (prepare_frame table w) as [_ [_ [_ [events1 [Hlog _]]]]].
  destruct (prepare tgt cfg env table w) as [[[res|plan]|e] w0] eqn:Hp; simpl.
  - destruct (prepare_inl _ _ _ _ _ Hp) as [reason ->]. simpl. auto.
  - destruct (transfer_outcome tgt env table
                (plan_select plan) (plan_insert plan) (plan_columns plan) w0)
      as [o [db [events [-> [Ho _]]]]].
    simpl. destruct o as [r|e].
    + intuition.
    + destruct Ho as [before [lost [attempts [Hback [-> ->]]]]].
      right. right. exists before, lost.
      exists (events1 ++ EvSelect (plan_select plan) :: attempts).
      split; [exact Hback|]. split; [reflexivity|].
      simpl in Hlog. rewrite Hlog. rewrite <- !app_assoc. reflexivity.
  - destruct (prepare_raised _ _ Hp) as [H|H]; auto.
Qed.

(** X9: an error result reports a multiple of 1000 rows: fewer rows than
    the cursor of the table yielded when the SELECT answered, and none,
    with the message of the SELECT, when the SELECT raised. *)
Theorem X9_error_reports_whole_batches :
  forall (table : string) (w w' : World) (r : Result),
    migrate_table tgt cfg env table w = (Ok r, w') ->
    r_status r = "error" ->
    exists (plan : Plan) (w0 : World) (k : nat),
      prepare tgt cfg env table w = (Ok (inr plan), w0)
      /\ r_rows_migrated r = batch_size * k
      /\ match s_raises (source env) (QSelect (plan_select plan)) with
         | None =>
             r_rows_migrated r < length (s_select (source env) (plan_select plan))
         | Some msg => r_rows_migrated r = 0 /\ r_error r = Some msg
         end.
Proof.
  intros table w w' r. unfold migrate_table, bind.
  destruct (prepare tgt cfg env table w) as [[[res|plan]|e] w0] eqn:Hp.
  - intros H Hst. injection H as <- _.
    destruct (prepare_inl _ _ _ _ _ Hp) as [reason ->]. discriminate.
  - intros H Hst.
    destruct (@transfer_error_count _ _ tgt env table _ _ _ w0 w' r H Hst)
      as [k [Hk Hlt]].
    exists plan, w0, k. auto.
  - discriminate.
Qed.

(** X10: a table with reconciled columns, rows in the source and an empty
    target is not put to the operator: whatever the outcome, the terminal
    input is left as it was, after the row counts the log goes on with the
    primary-key query and holds no question, and a result that is returned
    is a success or an error, not a skip.  The reads of the columns and of
    the row counts are taken to answer. *)
Theorem X10_empty_target_needs_no_confirmation :
  forall (table : string) (w : World),
    columns_answer tgt cfg env table (target w) ->
    counts_answer tgt cfg env table (target w) ->
    reconciled tgt cfg env table (target w) <> [] ->
    s_row_count (source env) (SOURCE_SCHEMA cfg) table <> 0 ->
    t_row_count tgt (target w) (TARGET_SCHEMA cfg) table = 0 ->
    exists (o : Outcome Result) (db : T) (events : list (Event Value)),
      migrate_table tgt cfg env table w
      = (o, after w db
              (column_events table ++ count_events table
                 ++ EvPrimaryKey table :: events))
      /\ Forall (fun e => is_input e = false) events
      /\ match o with
         | Ok r => r_status r = "success" \/ r_status r = "error"
         | Raised e => exists msg, e = DatabaseError msg
         end.
Proof.
  intros table w Hcols Hcounts Hc Hs Ht. unfold migrate_table, bind.
  rewrite (@prepare_target_empty_key _ _ tgt cfg env table w Hcols Hcounts Hc Hs Ht).
  destruct (t_raises tgt (target w) (QPrimaryKey (TARGET_SCHEMA cfg) table))
    as [msg|].
  - exists (Raised (DatabaseError msg)), (target w), [].
    split; [reflexivity|]. split; [constructor | eauto].
  - destruct (transfer_outcome tgt env table
                (plan_select (plan_of tgt cfg env table (target w)))
                (plan_insert (plan_of tgt cfg env table (target w)))
                (plan_columns (plan_of tgt cfg env table (target w)))
                (after w (target w)
                   (column_events table ++ count_events table ++ [EvPrimaryKey table])))
      as [o [db [events [-> [Ho Hev]]]]].
    exists o, db, (EvSelect (plan_select (plan_of tgt cfg env table (target w)))
                     :: events).
    split; [rewrite after_after; simpl; reflexivity|]. split.
    + constructor; [reflexivity|].
      apply Forall_impl with (2 := Hev).
      intros e He. destruct e; simpl in *; try contradiction; auto.
    + destruct o as [r|e]; [tauto|].
      destruct Ho as [before [lost [attempts [_ [-> _]]]]]. eauto.
Qed.

(** X11: when a table reaches its transfer (which takes a source counted
    with rows) and the cursor opened by the SELECT yields no row, the
    table is a success with zero rows, and after the SELECT nothing is
    logged: no executemany, no commit.  This holds for an empty target and
    for a target with rows whose overwrite the operator confirmed. *)
Theorem X11_empty_cursor_is_a_success_without_writes :
  forall (table : string) (w w0 : World) (plan : Plan),
    prepare tgt cfg env table w = (Ok (inr plan), w0) ->
    s_raises (source env) (QSelect (plan_select plan)) = None ->
    s_select (source env) (plan_select plan) = [] ->
    migrate_table tgt cfg env table w
    = (Ok (success_result table 0 (length (plan_columns plan))),
       after w0 (target w0) [EvSelect (plan_select plan)])
    /\ s_row_count (source env) (SOURCE_SCHEMA cfg) table <> 0.
Proof.
  intros table w w0 plan Hp Hsel Hnone. split.
  - unfold migrate_table, bind. rewrite Hp.
    unfold transfer. rewrite source_execute_eq, Hsel, Hnone. reflexivity.
  - exact (prepare_plan_source_rows _ _ Hp).
Qed.

(** X18: when the rows are cut into the batches [done ++ failed :: later],
    the batches of [done] are written and committed, the write of [failed]
    raises and the rollback of the handler does not, the table's result is
    an error with the exception's message and the number of rows of [done]
    (full batches, all committed); the log of the transfer is the writes
    of [done] in order, the attempt on [failed], then the rollback, so
    that no batch of [later] is attempted; and the loop over the tables
    goes on with the tables that follow, from the world the failed table
    left. *)
Theorem X18_batch_error_rolled_back_ends_table_only :
  forall (table : string) (w w0 : World) (plan : Plan)
         (ts : list (list Value)) (done later : list (list (list Value)))
         (failed : list (list Value)) (msg : string) (dbk dbf dbr : T),
    prepare tgt cfg env table w = (Ok (inr plan), w0) ->
    s_raises (source env) (QSelect (plan_select plan)) = None ->
    all_values (plan_columns plan) (s_select (source env) (plan_select plan)) = Some ts ->
    batches batch_size [] ts = done ++ failed :: later ->
    db_write_all tgt (target w0) (plan_insert plan) done = Some dbk ->
    db_write tgt dbk (plan_insert plan) failed = (Some msg, dbf) ->
    t_rollback tgt dbf = (None, dbr) ->
    let result := error_result table msg (length (concat done)) in
    let w' := after w0 dbr
                (EvSelect (plan_select plan)
                   :: write_events (plan_insert plan) done
                   ++ attempt_events tgt dbk (plan_insert plan) failed
                   ++ [EvRollback]) in
    migrate_table tgt cfg env table w = (Ok result, w')
    /\ length (concat done) = batch_size * length done
    /\ (forall (rest : list string) (results : list Result),
          migrate_all tgt cfg env (table :: rest) results w
          = migrate_all tgt cfg env rest (results ++ [result]) w').
Proof.
  intros table w w0 plan ts done later failed msg dbk dbf dbr
         Hprep Hsel Hall Hcut Hdone Hfail Hback result w'.
  assert (Hrun : migrate_table tgt cfg env table w = (Ok result, w')).
  { unfold migrate_table, bind. rewrite Hprep.
    eapply transfer_failure; eassumption. }
  repeat split.
  - exact Hrun.
  - apply (batches_prefix_full (size := batch_size) ts done later failed);
      [unfold batch_size; lia | exact Hcut].
  - intros rest results. simpl. unfold bind at 1. now rewrite Hrun.
Qed.

(** X19: in the same situation, when the rollback of the handler raises
    in its turn (as it does on a connection that was lost), its exception
    leaves [migrate_table] with no result for the table, and it leaves the
    loop over the tables as well: none of the tables that follow is
    processed. *)
Theorem X19_rollback_error_leaves_table_and_loop :
  forall (table : string) (w w0 : World) (plan : Plan)
         (ts : list (list Value)) (done later : list (list (list Value)))
         (failed : list (list Value)) (msg lost : string) (dbk dbf dbr : T),
    prepare tgt cfg env table w = (Ok (inr plan), w0) ->
    s_raises (source env) (QSelect (plan_select plan)) = None ->
    all_values (plan_columns plan) (s_select (source env) (plan_select plan)) = Some ts ->
    batches batch_size [] ts = done ++ failed :: later ->
    db_write_all tgt (target w0) (plan_insert plan) done = Some dbk ->
    db_write tgt dbk (plan_insert plan) failed = (Some msg, dbf) ->
    t_rollback tgt dbf = (Some lost, dbr) ->
    let w' := after w0 dbr
                (EvSelect (plan_select plan)
                   :: write_events (plan_insert plan) done
                   ++ attempt_events tgt dbk (plan_insert plan) failed
                   ++ [EvRollback]) in
    migrate_table tgt cfg env table w = (Raised (DatabaseError lost), w')
    /\ (forall (rest : list string) (results : list Result),
          migrate_all tgt cfg env (table :: rest) results w
          = (Raised (DatabaseError lost), w')).
Proof.
  intros table w w0 plan ts done later failed msg lost dbk dbf dbr
         Hprep Hsel Hall Hcut Hdone Hfail Hback w'.
  assert (Hrun : migrate_table tgt cfg env table w = (Raised (DatabaseError lost), w')).
  { unfold migrate_table, bind. rewrite Hprep.
    eapply transfer_failure_unhandled; eassumption. }
  split; [exact Hrun|].
  intros rest results. simpl. unfold bind at 1. now rewrite Hrun.
Qed.

(** No table writes a file. *)
Lemma migrate_table_files (table : string) (w : World) :
  files (snd (migrate_table tgt cfg env table w)) = files w.
Proof.
  unfold migrate_table, bind.
  pose proof (prepare_frame table w) as [_ [Hf _]].
  destruct (prepare tgt cfg env table w) as [[[res|plan]|e] w0]; simpl in *;
    try assumption.
  destruct (transfer_outcome tgt env table (plan_select plan) (plan_insert plan)
              (plan_columns plan) w0) as [o [db [events [-> _]]]].
  simpl. assumption.
Qed.

End TableInvariants.

(** ** The run, whatever its outcome *)

Section RunInvariants.

Variable Value : Type.
Variable T : Type.
Variable tgt : Target Value T.
Variable cfg : Config.
Variable env : Env Value.

Local Abbreviation World := (World Value T).

Lemma get_or_false_map (f : string -> bool) (tables : list string) (t : string) :
  In t tables ->
  get_or_false (map (fun table => (table, f table)) tables) t = f t.
Proof.
  induction tables as [|k tables IH]; intros Hin; simpl; [contradiction|].
  destruct (String.eqb_spec k t) as [->|Hne]; [reflexivity|].
  apply IH. destruct Hin; [contradiction | assumption].
Qed.

Lemma str_in_existing (tables catalog : list string) (t : string) :
  In t tables ->
  str_in t (filter (fun name => str_in name tables) catalog) = str_in t catalog.
Proof.
  intros Hin. apply eq_true_iff_eq.
  rewrite !str_in_In, filter_In, str_in_In. tauto.
Qed.

(** What [enumerate] answers. *)
Lemma enumerate_eq (w : World) :
  enumerate tgt cfg env w
  = (Ok (filter (on_both_sides tgt cfg env (target w)) (TABLES_TO_MIGRATE cfg)),
     after w (target w) [EvTables SourceConn; EvTables TargetConn]).
Proof.
  unfold enumerate, bind, check_tables_exist, ret. simpl. f_equal.
  - f_equal. apply filter_ext_in. intros t Hin. unfold on_both_sides.
    rewrite !get_or_false_map by assumption.
    now rewrite !str_in_existing by assumption.
  - unfold emit, after. simpl. now rewrite <- app_assoc.
Qed.

(** X12: the tables of a run are the configured tables found in the
    catalog of the source schema and in that of the target schema, in the
    configured order; enumerating them reads the two catalogs and changes
    nothing. *)
Theorem X12_enumerate_keeps_tables_on_both_sides :
  forall (w : World),
    exists tables,
      enumerate tgt cfg env w
      = (Ok tables, after w (target w) [EvTables SourceConn; EvTables TargetConn])
      /\ tables
         = filter (on_both_sides tgt cfg env (target w)) (TABLES_TO_MIGRATE cfg)
      /\ (forall t,
            In t tables
            <-> In t (TABLES_TO_MIGRATE cfg)
                /\ In t (s_tables (source env) (SOURCE_SCHEMA cfg))
                /\ In t (t_tables tgt (target w) (TARGET_SCHEMA cfg))).
Proof.
  intros w. eexists. split; [apply enumerate_eq|]. split; [reflexivity|].
  intros t. unfold on_both_sides.
  rewrite filter_In, andb_true_iff, !str_in_In. reflexivity.
Qed.

(** X13: the three counters of the summary add up to the number of
    results: the successes are the results with status success, the
    errors those with status error, and every other result counts as
    skipped. *)
Theorem X13_summary_counters_partition_results :
  forall (results : list Result),
    success_count (summarize results)
    = length (filter (fun r => r_status r =? "success")%string results)
    /\ error_count (summarize results)
       = length (filter (fun r => r_status r =? "error")%string results)
    /\ success_count (summarize results) + error_count (summarize results)
       + skipped_count (summarize results)
       = length results.
Proof.
  intros results. unfold summarize.
  assert (H : forall t0,
             success_count (fold_left count_result results t0)
             = success_count t0
               + length (filter (fun r => r_status r =? "success")%string results)
             /\ error_count (fold_left count_result results t0)
                = error_count t0
                  + length (filter (fun r => r_status r =? "error")%string results)
             /\ success_count (fold_left count_result results t0)
                + error_count (fold_left count_result results t0)
                + skipped_count (fold_left count_result results t0)
                = success_count t0 + error_count t0 + skipped_count t0
                  + length results).
  { induction results as [|r rest IH]; intros t0; simpl; [lia|].
    destruct (IH (count_result t0 r)) as [Hs [He Hall]].
    rewrite Hall, Hs, He. unfold count_result.
    destruct (String.eqb_spec (r_status r) "success") as [Heq|Hne]; simpl.
    - rewrite Heq. simpl. lia.
    - destruct (r_status r =? "error")%string; simpl; lia. }
  destruct (H {| total_rows := 0; success_count := 0; error_count := 0;
                 skipped_count := 0 |}) as [Hs [He Hall]].
  simpl in *. auto.
Qed.

Lemma migrate_all_files (tables : list string) :
  forall (acc : list Result) (w : World),
    files (snd (migrate_all tgt cfg env tables acc w)) = files w.
Proof.
  induction tables as [|table rest IH]; intros acc w; simpl; [reflexivity|].
  unfold bind. pose proof (migrate_table_files tgt cfg env table w) as Hf.
  destruct (migrate_table tgt cfg env table w) as [[r|e] w1]; simpl in *.
  - now rewrite IH.
  - assumption.
Qed.

(** X14: when a connection cannot be opened the run exits with status 1
    and touches nothing; otherwise, however the run ends (report saved,
    nothing to migrate, operator declining, exception), its last two calls
    close the source connection and the target connection. *)
Theorem X14_run_exits_or_closes_connections :
  forall (w : World),
    if verify_connections env then
      exists events,
        log (snd (main tgt cfg env w))
        = events ++ [EvClose SourceConn; EvClose TargetConn]
    else main tgt cfg env w = (Raised (SystemExit 1), w).
Proof.
  intros w. unfold main.
  destruct (verify_connections env); simpl; [|reflexivity].
  unfold finally.
  match goal with
  | |- context [let (o, w') := ?body w in _] => destruct (body w) as [o w1]
  end.
  simpl. exists (log w1). now rewrite <- app_assoc.
Qed.

(** X15: a run writes a file only as the report of a confirmed run: unless
    both connections are up, at least one configured table is on both
    sides and the operator's answer to the question of the run is s or S,
    the files are left as they were; and then at most the one log file is
    added. *)
Theorem X15_report_only_after_confirmation :
  forall (w : World),
    files (snd (main tgt cfg env w)) = files w
    \/ (verify_connections env = true
        /\ filter (on_both_sides tgt cfg env (target w)) (TABLES_TO_MIGRATE cfg) <> []
        /\ exists response rest content,
             stdin w = response :: rest
             /\ (response = "s" \/ response = "S")
             /\ files (snd (main tgt cfg env w))
                = (log_file env, content) :: files w).
Proof.
  intros w. unfold main.
  destruct (verify_connections env); simpl; [|now left].
  unfold finally, bind. rewrite enumerate_eq.
  set (tables := filter (on_both_sides tgt cfg env (target w)) (TABLES_TO_MIGRATE cfg)).
  destruct (is_empty tables) eqn:Hempty; simpl; [now left|].
  unfold input. simpl.
  destruct (stdin w) as [|response rest] eqn:Hin; simpl; [now left|].
  destruct (String.eqb_spec (lower response) "s") as [Hyes|Hno]; simpl; [|now left].
  match goal with
  | |- context [migrate_all tgt cfg env tables ?acc ?w0] =>
      pose proof (migrate_all_files tables acc w0) as Hf;
      destruct (migrate_all tgt cfg env tables acc w0) as [[results|e] w3]
  end; simpl in *.
  - right. split; [reflexivity|]. split.
    + intros Hnil. rewrite Hnil in Hempty. discriminate.
    + exists response, rest. eexists. split; [reflexivity|].
      split; [now apply lower_is_s|]. now rewrite Hf.
  - left. assumption.
Qed.

(** X16: when the operator's answer to the question of the run is neither
    s nor S, the run ends normally after reading that one line: the
    catalogs of the two sides were read, no table is looked at, the target
    is as it was and no file is written. *)
Theorem X16_declined_run_touches_nothing :
  forall (w : World) (response : string) (rest : list string),
    verify_connections env = true ->
    filter (on_both_sides tgt cfg env (target w)) (TABLES_TO_MIGRATE cfg) <> [] ->
    stdin w = response :: rest ->
    response <> "s" ->
    response <> "S" ->
    main tgt cfg env w
    = (Ok tt,
       {| target := target w; stdin := rest;
          log := log w ++ [EvTables SourceConn; EvTables TargetConn; EvInput None;
                           EvClose SourceConn; EvClose TargetConn];
          files := files w |}).
Proof.
  intros w response rest Hup Htables Hin Hs HS. unfold main.
  rewrite Hup. simpl. unfold finally, bind. rewrite enumerate_eq.
  rewrite (is_empty_false Htables). unfold input. simpl. rewrite Hin.
  assert (Hno : lower response <> "s") by (rewrite lower_is_s; tauto).
  rewrite (proj2 (String.eqb_neq _ _) Hno). simpl.
  unfold ret, close_connections, emit. simpl.
  rewrite <- !app_assoc. reflexivity.
Qed.

(** X17: when none of the configured tables is on both sides, the run
    ends normally without asking the operator anything: the catalogs were
    read, the terminal is not read, the target is as it was and no file
    is written. *)
Theorem X17_nothing_to_migrate_asks_nothing :
  forall (w : World),
    verify_connections env = true ->
    filter (on_both_sides tgt cfg env (target w)) (TABLES_TO_MIGRATE cfg) = [] ->
    main tgt cfg env w
    = (Ok tt,
       after w (target w)
         [EvTables SourceConn; EvTables TargetConn;
          EvClose SourceConn; EvClose TargetConn]).
Proof.
  intros w Hup Htables. unfold main.
  rewrite Hup. simpl. unfold finally, bind. rewrite enumerate_eq, Htables. simpl.
  unfold ret, close_connections, emit, after. simpl.
  rewrite <- !app_assoc. reflexivity.
Qed.

(** X20: an exception that leaves the loop over the tables leaves the run
    as well: the report is not written (the files are as they were before
    the run), the two connections are closed, and the exception reaches
    the caller of [main]. *)
Theorem X20_exception_in_loop_leaves_no_report :
  forall (w w1 w2 w3 : World) (tables : list string) (response : string)
         (e : Exn),
    verify_connections env = true ->
    enumerate tgt cfg env w = (Ok tables, w1) ->
    tables <> [] ->
    input None w1 = (Ok response, w2) ->
    lower response = "s" ->
    migrate_all tgt cfg env tables [] w2 = (Raised e, w3) ->
    main tgt cfg env w = (Raised e, close_connections w3)
    /\ files (close_connections w3) = files w
    /\ log (close_connections w3)
       = log w3 ++ [EvClose SourceConn; EvClose TargetConn].
Proof.
  intros w w1 w2 w3 tables response e Hup Henum Hne Hin Hyes Hall.
  split; [|split].
  - unfold main. rewrite Hup. simpl. unfold finally, bind.
    rewrite Henum, (is_empty_false Hne), Hin, Hyes. simpl. now rewrite Hall.
  - pose proof (migrate_all_files tables [] w2) as Hf.
    rewrite Hall in Hf. simpl in *. rewrite Hf.
    rewrite enumerate_eq in Henum. injection Henum as _ <-.
    unfold input in Hin. simpl in Hin.
    destruct (stdin w); [discriminate|]. now injection Hin as _ <-.
  - unfold close_connections, emit. simpl. now rewrite <- app_assoc.
Qed.

End RunInvariants.

(** ** The further properties on the small database *)

(** X9 in scenario A, where the error of tokens reports 1000 rows of the
    1001 the cursor yielded, and in scenario M, where the SELECT is
    refused and the error reports no row. *)
Lemma X9_witness :
  (exists (plan : Plan) (w0 : World Z Toy.DB) (k : nat),
     prepare Toy.tgt Toy.cfg Toy.env_a "tokens" Toy.world_a = (Ok (inr plan), w0)
     /\ r_rows_migrated (error_result "tokens" "new row violates check constraint" 1000)
        = batch_size * k
     /\ match s_raises (source Toy.env_a) (QSelect (plan_select plan)) with
        | None =>
            r_rows_migrated (error_result "tokens" "new row violates check constraint" 1000)
            < length (s_select (source Toy.env_a) (plan_select plan))
        | Some msg =>
            r_rows_migrated (error_result "tokens" "new row violates check constraint" 1000)
            = 0
            /\ r_error (error_result "tokens" "new row violates check constraint" 1000)
               = Some msg
        end)
  /\ (exists (plan : Plan) (w0 : World Z Toy.DB) (k : nat),
        prepare Toy.tgt Toy.cfg Toy.env_m "tokens" Toy.world_b = (Ok (inr plan), w0)
        /\ r_rows_migrated (error_result "tokens" Toy.denied 0) = batch_size * k
        /\ match s_raises (source Toy.env_m) (QSelect (plan_select plan)) with
           | None =>
               r_rows_migrated (error_result "tokens" Toy.denied 0)
               < length (s_select (source Toy.env_m) (plan_select plan))
           | Some msg =>
               r_rows_migrated (error_result "tokens" Toy.denied 0) = 0
               /\ r_error (error_result "tokens" Toy.denied 0) = Some msg
           end).
Proof.
  split.
  - apply (@X9_error_reports_whole_batches Z Toy.DB Toy.tgt Toy.cfg Toy.env_a
             "tokens" Toy.world_a
             (snd (migrate_table Toy.tgt Toy.cfg Toy.env_a "tokens" Toy.world_a))).
    + vm_compute. reflexivity.
    + reflexivity.
  - apply (@X9_error_reports_whole_batches Z Toy.DB Toy.tgt Toy.cfg Toy.env_m
             "tokens" Toy.world_b
             (snd (migrate_table Toy.tgt Toy.cfg Toy.env_m "tokens" Toy.world_b))).
    + vm_compute. reflexivity.
    + reflexivity.
Defined.

(** X10 in scenario C: the target table is empty and nothing is asked. *)
Lemma X10_witness :
  exists (o : Outcome Result) (db : Toy.DB) (events : list (Event Z)),
    migrate_table Toy.tgt Toy.cfg Toy.env_c "tokens" Toy.world_c
    = (o, after Toy.world_c db
            (column_events "tokens" ++ count_events "tokens"
               ++ EvPrimaryKey "tokens" :: events))
    /\ Forall (fun e => is_input e = false) events
    /\ match o with
       | Ok r => r_status r = "success" \/ r_status r = "error"
       | Raised e => exists msg, e = DatabaseError msg
       end.
Proof.
  apply (@X10_empty_target_needs_no_confirmation Z Toy.DB Toy.tgt Toy.cfg Toy.env_c
           "tokens" Toy.world_c).
  - split; reflexivity.
  - split; reflexivity.
  - vm_compute. discriminate.
  - vm_compute. discriminate.
  - reflexivity.
Defined.

(** X11 in scenario H, with rows in the target and an operator who
    confirms: the row counted in the source is gone when the cursor is
    opened. *)
Lemma X11_witness :
  migrate_table Toy.tgt Toy.cfg Toy.env_h "tokens" Toy.world_h
  = (Ok (success_result "tokens" 0 2),
     after (snd (prepare Toy.tgt Toy.cfg Toy.env_h "tokens" Toy.world_h))
       (target Toy.world_h)
       [EvSelect (select_query "arbitrage" "tokens" ["id"; "v"])])
  /\ s_row_count (source Toy.env_h) (SOURCE_SCHEMA Toy.cfg) "tokens" <> 0.
Proof.
  apply (@X11_empty_cursor_is_a_success_without_writes Z Toy.DB Toy.tgt Toy.cfg
           Toy.env_h "tokens" Toy.world_h
           (snd (prepare Toy.tgt Toy.cfg Toy.env_h "tokens" Toy.world_h))
           (plan_of Toy.tgt Toy.cfg Toy.env_h "tokens" (target Toy.world_h))).
  - vm_compute. reflexivity.
  - reflexivity.
  - reflexivity.
Defined.

(** X18 in scenario A: the second batch of tokens raises after the first
    was committed; the result is an error with 1000 rows, and the loop goes
    on with the tables after tokens. *)
Lemma X18_witness :
  fst (migrate_table Toy.tgt Toy.cfg Toy.env_a "tokens" Toy.world_a)
  = Ok (error_result "tokens" "new row violates check constraint" 1000)
  /\ (forall (rest : list string) (results : list Result),
        migrate_all Toy.tgt Toy.cfg Toy.env_a ("tokens" :: rest) results Toy.world_a
        = migrate_all Toy.tgt Toy.cfg Toy.env_a rest
            (results ++ [error_result "tokens" "new row violates check constraint" 1000])
            (snd (migrate_table Toy.tgt Toy.cfg Toy.env_a "tokens" Toy.world_a))).
Proof.
  pose (plan := plan_of Toy.tgt Toy.cfg Toy.env_a "tokens" (target Toy.world_a)).
  pose (w0 := snd (prepare Toy.tgt Toy.cfg Toy.env_a "tokens" Toy.world_a)).
  pose (done := [Toy.numbered 0 1000]).
  pose (dbk := match db_write_all Toy.tgt (target w0) (plan_insert plan) done with
               | Some db => db
               | None => target w0
               end).
  pose proof (@X18_batch_error_rolled_back_ends_table_only Z Toy.DB Toy.tgt Toy.cfg
                Toy.env_a "tokens" Toy.world_a w0 plan
                (Toy.numbered 0 1000 ++ [[-1; 7]%Z])
                done [] [[-1; 7]%Z]
                "new row violates check constraint" dbk dbk dbk) as H.
  cbv zeta in H.
  destruct H as [Hrun [_ Hnext]]; try (vm_compute; reflexivity).
  split.
  - rewrite Hrun. reflexivity.
  - intros rest results. rewrite Hnext, Hrun. reflexivity.
Defined.

(** X19 in scenario L: the connection is lost at the first batch of
    tokens, the rollback raises, and neither tokens nor any table after it
    gets a result. *)
Lemma X19_witness :
  fst (migrate_table Toy.tgt Toy.cfg Toy.env_l "tokens" Toy.world_l)
  = Raised (DatabaseError Toy.closed)
  /\ (forall (rest : list string) (results : list Result),
        fst (migrate_all Toy.tgt Toy.cfg Toy.env_l ("tokens" :: rest) results
               Toy.world_l)
        = Raised (DatabaseError Toy.closed)).
Proof.
  pose (plan := plan_of Toy.tgt Toy.cfg Toy.env_l "tokens" (target Toy.world_l)).
  pose (w0 := snd (prepare Toy.tgt Toy.cfg Toy.env_l "tokens" Toy.world_l)).
  pose (dbf := snd (t_executemany Toy.tgt (target w0) (plan_insert plan)
                      (Toy.numbered 0 2))).
  pose proof (@X19_rollback_error_leaves_table_and_loop Z Toy.DB Toy.tgt Toy.cfg
                Toy.env_l "tokens" Toy.world_l w0 plan
                (Toy.numbered 0 2) [] [] (Toy.numbered 0 2)
                "server closed the connection unexpectedly" Toy.closed
                (target w0) dbf dbf) as H.
  cbv zeta in H.
  destruct H as [Hrun Hnext]; try (vm_compute; reflexivity).
  split.
  - rewrite Hrun. reflexivity.
  - intros rest results. rewrite Hnext. reflexivity.
Defined.

(** X20 in scenario L: the run ends with the exception of the rollback and
    without a report. *)
Lemma X20_witness :
  main Toy.tgt Toy.cfg Toy.env_l Toy.world_l
  = (Raised (DatabaseError Toy.closed),
     close_connections
       (snd (migrate_all Toy.tgt Toy.cfg Toy.env_l ["tokens"; "pools"] []
               (snd (input None
                       (snd (enumerate Toy.tgt Toy.cfg Toy.env_l Toy.world_l)))))))
  /\ files (snd (main Toy.tgt Toy.cfg Toy.env_l Toy.world_l)) = files Toy.world_l.
Proof.
  pose (w1 := snd (enumerate Toy.tgt Toy.cfg Toy.env_l Toy.world_l)).
  pose (w2 := snd (input None w1)).
  pose (w3 := snd (migrate_all Toy.tgt Toy.cfg Toy.env_l ["tokens"; "pools"] [] w2)).
  destruct (@X20_exception_in_loop_leaves_no_report Z Toy.DB Toy.tgt Toy.cfg Toy.env_l
              Toy.world_l w1 w2 w3 ["tokens"; "pools"] "s"
              (DatabaseError Toy.closed)) as [Hrun [Hfiles _]];
    try (vm_compute; reflexivity).
  - discriminate.
  - split; [exact Hrun|]. rewrite Hrun. exact Hfiles.
Defined.

(** X16 in scenario J: the operator answers n. *)
Lemma X16_witness :
  main Toy.tgt Toy.cfg Toy.env_a Toy.world_j
  = (Ok tt,
     {| target := target Toy.world_j; stdin := ["s"];
        log := log Toy.world_j
                 ++ [EvTables SourceConn; EvTables TargetConn; EvInput None;
                     EvClose SourceConn; EvClose TargetConn];
        files := files Toy.world_j |}).
Proof.
  apply (@X16_declined_run_touches_nothing Z Toy.DB Toy.tgt Toy.cfg Toy.env_a
           Toy.world_j "n" ["s"]).
  - reflexivity.
  - vm_compute. discriminate.
  - reflexivity.
  - discriminate.
  - discriminate.
Defined.

(** X17 in scenario K: the target holds none of the configured tables. *)
Lemma X17_witness :
  main Toy.tgt Toy.cfg Toy.env_a Toy.world_k
  = (Ok tt,
     after Toy.world_k (target Toy.world_k)
       [EvTables SourceConn; EvTables TargetConn;
        EvClose SourceConn; EvClose TargetConn]).
Proof.
  apply (@X17_nothing_to_migrate_asks_nothing Z Toy.DB Toy.tgt Toy.cfg Toy.env_a
           Toy.world_k).
  - reflexivity.
  - reflexivity.
Defined.
